(** * protosh: a shallow embedding of [main.c]

    The interpreter of [main.c] is a single C translation unit: the read /
    split / execute loop with the builtins [cd], [help], [exit], and the
    history subsystem ([add_to_history], [clear_history], [protosh_history]).

    The embedding follows the C text function by function.

    - C strings living in [malloc]ed buffers are cells of a heap
      ([gmap nat string]); a [char *] is an [option nat], [None] being
      [NULL].  Locations are never reused, so that a pointer to a freed
      buffer stays recognisably dangling.
    - [malloc], [calloc], [realloc] and [strdup] may fail; their successive
      results are read from an oracle carried by the state.
    - The [history] array is a [list] of slots updated by index; reading or
      writing outside of it is a [Fault], as is a read through [NULL] or
      through a dangling pointer.  So is the call [protosh_execute] makes of
      [protosh_history] through the table [builtin_func], with one argument
      for a function of two parameters.
    - The arrays [tokens] and [args] are held by value.
    - [exit(n)] ends the run with [Exit n].
    - [int] is 32 bits and [long] 64 bits (LP64, the data model of the POSIX
      platforms [fork]/[execvp]/[waitpid] target); the conversion
      [(int) loffset] is written out as a wrap-around.
    - The state is that of the interpreter process.  Of a forked child it
      sees what [waitpid] reports and what the child takes from the
      [stdin] they share; both are read from an oracle carried by the
      state, as are the results of [chdir] and [fork].
    - A run that does not come to an end ([waitpid] never returns, or the
      bound set on the turns of the loop is used up) is [Unfinished].

    The static [input] is used by no function of [main.c] and has no
    counterpart here; [is_history_command], which no function calls, is
    embedded on its own. *)

From Stdlib Require Import ZArith Lia Ascii String List.
From stdpp Require Import base option list gmap strings pretty.

Local Open Scope string_scope.
Local Open Scope Z_scope.
Local Open Scope list_scope.

(** ** Data model *)

(** Modelled from the spec: [struct command], used by [protosh_history]
    ([cmd->argc], [cmd->argv[1]]) and declared nowhere in [main.c].  "An
    ordered sequence of argument strings (program name first), with a
    derived count." *)
Record command := mk_command { argc : Z; argv : list string }.

(** Modelled from the spec: [struct commands], declared nowhere in
    [main.c].  "An ordered sequence of Command values representing one or
    more stages." *)
Definition commands := list command.

(** The command made of a NULL-terminated [char **args]. *)
Definition command_of_args (args : list string) : command :=
  mk_command (Z.of_nat (length args)) args.

(** What is written to [stderr]: a formatted message, or [perror(tag)],
    whose text depends on [errno]. *)
Inductive diagnostic :=
  | Message (text : string)
  | Perror (tag : string).

(** Where the behaviour of the C program is undefined: a read through
    [NULL], outside of an array or through a pointer to a released buffer,
    and a call through a pointer to a function of another type. *)
Inductive fault :=
  | NullPointer
  | OutOfBounds (index : Z)
  | DanglingPointer (loc : nat)
  | UndefinedCall.

(** The heap of C strings, and the oracle of the allocator: the n-th
    allocation request succeeds iff the n-th boolean is [true]; once the list
    is used up every request succeeds. *)
Record memory := mk_memory {
  heap : gmap nat string;
  next_loc : nat;
  allocs : list bool
}.

(** [static char **history; static int history_len;] *)
Record store := mk_store {
  history : option (list (option nat));
  history_len : Z
}.

(** [static struct command *parent_cmd; static struct commands *parent_cmds;
    static char *temp_line;] *)
Record replay_context := mk_replay_context {
  parent_cmd : option command;
  parent_cmds : option commands;
  temp_line : option nat
}.

(** What [waitpid(pid, &status, WUNTRACED)] reports of a child: it was
    stopped, it has exited, it was killed by a signal. *)
Inductive wait_status :=
  | Stopped
  | Exited
  | Signaled.

(** A forked child as the interpreter sees it: the number of bytes the
    child takes from the [stdin] it shares with the interpreter, and the
    successive reports of [waitpid]; after the last of them [waitpid] does
    not return. *)
Record child_run := mk_child_run {
  consumed : nat;
  reports : list wait_status
}.

(** What the interpreter process exchanges with the operating system: the
    bytes still to be read on [stdin], what was written to [stdout] and
    [stderr], the directories successfully [chdir]ed to, the programs
    forked, the oracle for the results of [chdir] and [fork], and the oracle
    for the forked children: the n-th child behaves as the n-th element
    says; once the list is used up a child reads nothing and exits. *)
Record world := mk_world {
  stdin : list ascii;
  stdout : list string;
  stderr : list diagnostic;
  chdirs : list string;
  spawned : list (list string);
  syscalls : list bool;
  children : list child_run
}.

Record state := mk_state {
  mem : memory;
  hist : store;
  ctx : replay_context;
  io : world
}.

Definition EXIT_SUCCESS : Z := 0.
Definition EXIT_FAILURE : Z := 1.

Inductive outcome (A : Type) :=
  | Ret (value : A) (st : state)
  | Exit (status : Z) (st : state)
  | Fault (f : fault) (st : state)
  | Unfinished.

Arguments Ret {A} value st.
Arguments Exit {A} status st.
Arguments Fault {A} f st.
Arguments Unfinished {A}.

(** A C function returning [A]. *)
Definition M (A : Type) : Type := state -> outcome A.

Definition ret {A} (a : A) : M A := fun st => Ret a st.

Definition bind {A B} (m : M A) (k : A -> M B) : M B :=
  fun st =>
    match m st with
    | Ret a st' => k a st'
    | Exit n st' => Exit n st'
    | Fault f st' => Fault f st'
    | Unfinished => Unfinished
    end.

Declare Scope prog_scope.
Delimit Scope prog_scope with prog.
Notation "x <- m ;; k" := (bind m (fun x => k))
  (at level 100, m at next level, right associativity) : prog_scope.
Notation "m ;;; k" := (bind m (fun _ => k))
  (at level 100, right associativity) : prog_scope.
Local Open Scope prog_scope.

Definition gets {A} (f : state -> A) : M A := fun st => Ret (f st) st.
Definition modify (f : state -> state) : M unit := fun st => Ret tt (f st).
Definition exit {A} (status : Z) : M A := fun st => Exit status st.
Definition fail {A} (f : fault) : M A := fun st => Fault f st.

Definition with_mem (f : memory -> memory) (st : state) : state :=
  mk_state (f (mem st)) (hist st) (ctx st) (io st).
Definition with_hist (f : store -> store) (st : state) : state :=
  mk_state (mem st) (f (hist st)) (ctx st) (io st).
Definition with_ctx (c : replay_context) (st : state) : state :=
  mk_state (mem st) (hist st) c (io st).
Definition with_io (f : world -> world) (st : state) : state :=
  mk_state (mem st) (hist st) (ctx st) (f (io st)).

(** *** Streams *)

(** [printf] *)
Definition print (text : string) : M unit :=
  modify (with_io (fun w =>
    mk_world (stdin w) (stdout w ++ [text]) (stderr w) (chdirs w) (spawned w) (syscalls w)
      (children w))).

Definition report (d : diagnostic) (st : state) : state :=
  with_io (fun w =>
    mk_world (stdin w) (stdout w) (stderr w ++ [d]) (chdirs w) (spawned w) (syscalls w)
      (children w)) st.

(** [fprintf(stderr, ...)] *)
Definition eprint (text : string) : M unit := modify (report (Message text)).

(** [perror] *)
Definition perror (tag : string) : M unit := modify (report (Perror tag)).

Definition set_stdin (pending : list ascii) : M unit :=
  modify (with_io (fun w =>
    mk_world pending (stdout w) (stderr w) (chdirs w) (spawned w) (syscalls w)
      (children w))).

(** The result of the next fallible system call ([chdir], [fork]). *)
Definition syscall_ok : M bool :=
  fun st =>
    let w := io st in
    match syscalls w with
    | [] => Ret true st
    | b :: rest =>
        Ret b (with_io (fun _ =>
          mk_world (stdin w) (stdout w) (stderr w) (chdirs w) (spawned w) rest
            (children w)) st)
    end.

(** The child the next successful [fork] creates. *)
Definition next_child : M child_run :=
  fun st =>
    let w := io st in
    match children w with
    | [] => Ret (mk_child_run 0 [Exited]) st
    | c :: rest =>
        Ret c (with_io (fun _ =>
          mk_world (stdin w) (stdout w) (stderr w) (chdirs w) (spawned w) (syscalls w)
            rest) st)
    end.

(** [waitpid] does not return. *)
Definition blocked {A} : M A := fun _ => Unfinished.

(** *** Memory *)

(** The result of the next allocation request. *)
Definition alloc_ok : M bool :=
  fun st =>
    let m := mem st in
    match allocs m with
    | [] => Ret true st
    | b :: rest => Ret b (with_mem (fun _ => mk_memory (heap m) (next_loc m) rest) st)
    end.

(** A fresh buffer holding [text]. *)
Definition new_buffer (text : string) : M nat :=
  fun st =>
    let m := mem st in
    let l := next_loc m in
    Ret l (with_mem (fun _ => mk_memory (<[l := text]> (heap m)) (S l) (allocs m)) st).

(** Reading the C string behind a pointer. *)
Definition load (p : option nat) : M string :=
  fun st =>
    match p with
    | None => Fault NullPointer st
    | Some l =>
        match heap (mem st) !! l with
        | Some text => Ret text st
        | None => Fault (DanglingPointer l) st
        end
    end.

(** Overwriting the buffer behind a live pointer. *)
Definition store_buffer (l : nat) (text : string) : M unit :=
  fun st =>
    let m := mem st in
    match heap m !! l with
    | Some _ => Ret tt (with_mem (fun _ => mk_memory (<[l := text]> (heap m)) (next_loc m) (allocs m)) st)
    | None => Fault (DanglingPointer l) st
    end.

(** [free(p)]: nothing for [NULL]; freeing twice is a fault. *)
Definition free (p : option nat) : M unit :=
  fun st =>
    match p with
    | None => Ret tt st
    | Some l =>
        let m := mem st in
        match heap m !! l with
        | Some _ => Ret tt (with_mem (fun _ => mk_memory (delete l (heap m)) (next_loc m) (allocs m)) st)
        | None => Fault (DanglingPointer l) st
        end
    end.

(** [strdup] of a text: [NULL] when the allocation fails. *)
Definition strdup_text (text : string) : M (option nat) :=
  ok <- alloc_ok ;;
  if ok : bool then l <- new_buffer text ;; ret (Some l) else ret None.

(** [strdup(p)]: the source is read, then copied into a fresh buffer. *)
Definition strdup (p : option nat) : M (option nat) :=
  text <- load p ;; strdup_text text.

(** *** The history array *)

(** [history[i]] as an rvalue. *)
Definition history_get (i : Z) : M (option nat) :=
  fun st =>
    match history (hist st) with
    | None => Fault NullPointer st
    | Some slots =>
        if (0 <=? i) && (i <? Z.of_nat (length slots)) then
          match slots !! Z.to_nat i with
          | Some p => Ret p st
          | None => Fault (OutOfBounds i) st
          end
        else Fault (OutOfBounds i) st
    end.

(** [history[i] = p] *)
Definition history_set (i : Z) (p : option nat) : M unit :=
  fun st =>
    match history (hist st) with
    | None => Fault NullPointer st
    | Some slots =>
        if (0 <=? i) && (i <? Z.of_nat (length slots)) then
          Ret tt (with_hist (fun h => mk_store (Some (<[Z.to_nat i := p]> slots)) (history_len h)) st)
        else Fault (OutOfBounds i) st
    end.

Definition set_history_len (n : Z) : M unit :=
  modify (with_hist (fun h => mk_store (history h) n)).

(** [memmove(history, history+1, space_to_move)] with [space_to_move] the
    size of [HISTORY_MAXITEMS - 1] pointers: every slot but the first moves
    down by one; the last slot keeps its value. *)
Definition memmove_down (slots : list (option nat)) : list (option nat) :=
  drop 1 slots ++ drop (length slots - 1)%nat slots.

(** A [for (i = 0; i < n; i++)] loop whose bound is not changed by its body. *)
Fixpoint for_each (indices : list Z) (body : Z -> M unit) : M unit :=
  match indices with
  | [] => ret tt
  | i :: rest => body i ;;; for_each rest body
  end.

(** ** C library functions on strings and integers *)

Definition char_code (c : ascii) : Z := Z.of_nat (nat_of_ascii c).

(** The characters [\n] and the double quote, as one-character strings. *)
Definition LF : string := String (ascii_of_nat 10) "".
Definition DQUOTE : string := String (ascii_of_nat 34) "".

(** [isspace] in the C locale: space, [\t], [\n], [\v], [\f], [\r]. *)
Definition isspace (c : ascii) : bool :=
  (char_code c =? 32) || ((9 <=? char_code c) && (char_code c <=? 13)).

Definition digit_value (c : ascii) : option Z :=
  if (48 <=? char_code c) && (char_code c <=? 57) then Some (char_code c - 48) else None.

Fixpoint skip_spaces (s : string) : string :=
  match s with
  | String c rest => if isspace c then skip_spaces rest else s
  | EmptyString => s
  end.

(** The value of the longest prefix of decimal digits, continuing [acc]. *)
Fixpoint digits_value (acc : Z) (s : string) : Z :=
  match s with
  | String c rest =>
      match digit_value c with
      | Some d => digits_value (10 * acc + d) rest
      | None => acc
      end
  | EmptyString => acc
  end.

Definition LONG_MAX : Z := 2 ^ 63 - 1.
Definition LONG_MIN : Z := - 2 ^ 63.
Definition INT_MAX : Z := 2 ^ 31 - 1.
Definition INT_MIN : Z := - 2 ^ 31.

Definition clamp_long (v : Z) : Z := Z.max LONG_MIN (Z.min LONG_MAX v).

(** [strtol(nptr, &end, 10)]: white space, an optional sign, then decimal
    digits.  [None] stands for [end == nptr] (no digit, nothing converted);
    otherwise the value, clamped to the range of [long]. *)
Definition strtol (nptr : string) : option Z :=
  let s := skip_spaces nptr in
  let '(negative, body) :=
    match s with
    | String "-" rest => (true, rest)
    | String "+" rest => (false, rest)
    | _ => (false, s)
    end in
  match body with
  | String c _ =>
      match digit_value c with
      | Some _ =>
          let v := digits_value 0 body in
          Some (clamp_long (if negative : bool then - v else v))
      | None => None
      end
  | EmptyString => None
  end.

(** [(int) loffset]: the low 32 bits, read as a signed number. *)
Definition int_of_long (v : Z) : Z := (v + 2 ^ 31) mod 2 ^ 32 - 2 ^ 31.

(** [protosh_TOK_DELIM] is [" \t\r\n\a"]. *)
Definition is_tok_delim (c : ascii) : bool :=
  (char_code c =? 32) || (char_code c =? 9) || (char_code c =? 13)
  || (char_code c =? 10) || (char_code c =? 7).

(** The tokens successive [strtok(_, protosh_TOK_DELIM)] calls return on a
    line: maximal runs of non-delimiters.  [cur] is the token being read. *)
Fixpoint strtok_tokens (line : string) (cur : string) : list string :=
  match line with
  | EmptyString => if String.eqb cur "" then [] else [cur]
  | String c rest =>
      if is_tok_delim c then
        (if String.eqb cur "" then strtok_tokens rest ""
         else cur :: strtok_tokens rest "")
      else strtok_tokens rest (cur +:+ String c "")
  end.

(** The line as a C string once [strtok] has returned its first token:
    [strtok] skips the delimiters before the token and overwrites the
    delimiter that ends it with NUL; a line without token, or ending with
    its first token, is not written to.  The NULs written by the later
    calls lie behind the first one.  [in_token] tells whether the token has
    begun. *)
Fixpoint strtok_cut (line : string) (in_token : bool) : string :=
  match line with
  | EmptyString => ""
  | String c rest =>
      if is_tok_delim c then
        (if in_token then "" else String c (strtok_cut rest false))
      else String c (strtok_cut rest true)
  end.

(** The C string stored in a buffer: its bytes up to the first NUL. *)
Fixpoint c_string (bytes : list ascii) : string :=
  match bytes with
  | [] => ""
  | c :: rest => if char_code c =? 0 then "" else String c (c_string rest)
  end.

Definition protosh_RL_BUFSIZE : Z := 1024.
Definition protosh_TOK_BUFSIZE : Z := 64.

(** [builtin_str] *)
Definition builtin_str : list string := ["cd"; "help"; "exit"; "history"].

Definition protosh_num_builtins : Z := Z.of_nat (length builtin_str).

(** ** The program *)

Section Shell.

(** [HISTORY_MAXITEMS] is used by [add_to_history] but defined nowhere in
    [main.c]; it is a parameter of the development. *)
Variable HISTORY_MAXITEMS : Z.

(** [parse_commands_with_pipes], [exec_commands] and [cleanup_commands] are
    called by [protosh_history] but defined nowhere in [main.c].  The first
    two are parameters: a parser of the text behind the line pointer, and an
    arbitrary C function of the parsed pipeline.  [cleanup_commands] releases
    the parsed pipeline, which the embedding holds by value. *)
Variable parse_commands_with_pipes : string -> commands.
Variable exec_commands : commands -> M Z.

(** *** Builtins [cd], [help], [exit] and external programs *)

Definition record_chdir (dir : string) : M unit :=
  modify (with_io (fun w =>
    mk_world (stdin w) (stdout w) (stderr w) (chdirs w ++ [dir]) (spawned w) (syscalls w)
      (children w))).

Definition record_spawn (args : list string) : M unit :=
  modify (with_io (fun w =>
    mk_world (stdin w) (stdout w) (stderr w) (chdirs w) (spawned w ++ [args]) (syscalls w)
      (children w))).

Definition protosh_cd (args : list string) : M Z :=
  match args !! 1%nat with
  | None =>
      eprint ("protosh: expected argument to " +:+ DQUOTE +:+ "cd" +:+ DQUOTE +:+ LF) ;;;
      ret 1
  | Some dir =>
      ok <- syscall_ok ;;
      (if ok : bool then record_chdir dir else perror "protosh") ;;;
      ret 1
  end.

Definition protosh_help (args : list string) : M Z :=
  print ("Jonathan Medhanie's protosh" +:+ LF) ;;;
  print ("Type program names and arguments, and hit enter!" +:+ LF) ;;;
  print ("The following are built in:" +:+ LF) ;;;
  for_each (seqZ 0 protosh_num_builtins)
    (fun i => print ("  " +:+ nth (Z.to_nat i) builtin_str "" +:+ LF)) ;;;
  print ("Use the man command for information on other programs." +:+ LF) ;;;
  ret 1.

Definition protosh_exit (args : list string) : M Z := ret 0.

(** The [do ... while (!WIFEXITED(status) && !WIFSIGNALED(status))] loop of
    [protosh_launch] over what the calls of [waitpid] report: it goes on
    while the child is reported stopped, and ends when the child has exited
    or was killed. *)
Fixpoint wait_loop (reports : list wait_status) : M unit :=
  match reports with
  | [] => blocked
  | Stopped :: rest => wait_loop rest
  | Exited :: _ => ret tt
  | Signaled :: _ => ret tt
  end.

(** [protosh_launch], as seen from the interpreter process.  When [fork]
    fails the error is reported.  When it succeeds the child runs ([execvp],
    or [perror] and [exit(EXIT_FAILURE)], in another process): it takes
    what it reads from the shared [stdin], and the interpreter waits in the
    [waitpid] loop until the child has exited or was killed. *)
Definition protosh_launch (args : list string) : M Z :=
  ok <- syscall_ok ;;
  (if ok : bool then
     record_spawn args ;;;
     child <- next_child ;;
     pending <- gets (fun st => stdin (io st)) ;;
     set_stdin (drop (consumed child) pending) ;;;
     wait_loop (reports child)
   else perror "protosh") ;;;
  ret 1.

(** *** The history store *)

(** [clear_history] *)
Definition clear_history : M Z :=
  len <- gets (fun st => history_len (hist st)) ;;
  for_each (seqZ 0 len) (fun i => p <- history_get i ;; free p) ;;;
  set_history_len 0 ;;;
  ret 0.

(** [add_to_history].  The test [history == NULL] after [memmove] can never
    succeed there ([history] was just read through) and has no counterpart. *)
Definition add_to_history (input : string) : M Z :=
  h <- gets (fun st => history (hist st)) ;;
  initialised <-
    match h with
    | Some _ => ret true
    | None =>
        ok <- alloc_ok ;;
        if ok : bool then
          modify (with_hist (fun s =>
            mk_store (Some (replicate (Z.to_nat HISTORY_MAXITEMS) None)) (history_len s))) ;;;
          ret true
        else
          eprint ("error: memory alloc error" +:+ LF) ;;;
          ret false
    end ;;
  if initialised : bool then
    line <- strdup_text input ;;
    match line with
    | None => ret 0
    | Some l =>
        len <- gets (fun st => history_len (hist st)) ;;
        (if len =? HISTORY_MAXITEMS then
           oldest <- history_get 0 ;;
           free oldest ;;;
           modify (with_hist (fun s =>
             mk_store (memmove_down <$> history s) (history_len s))) ;;;
           set_history_len (len - 1)
         else ret tt) ;;;
        len <- gets (fun st => history_len (hist st)) ;;
        history_set len (Some l) ;;;
        set_history_len (len + 1) ;;;
        ret 1
    end
  else ret 0.

(** *** The [history] builtin *)

Definition set_replay_context (cmd : option command) (line : option nat)
    (cmds : option commands) : M unit :=
  modify (with_ctx (mk_replay_context cmd cmds line)).

(** The replay path of [protosh_history]: from [strdup(history[offset])] to
    the final [return 0]. *)
Definition replay (cmds : commands) (cmd : command) (offset : Z) : M Z :=
  entry <- history_get offset ;;
  line <- strdup entry ;;
  match line with
  | None => ret 1
  | Some l =>
      text <- load (Some l) ;;
      let new_commands := parse_commands_with_pipes text in
      set_replay_context (Some cmd) (Some l) (Some cmds) ;;;
      _ <- exec_commands new_commands ;;
      free (Some l) ;;;
      set_replay_context None None None ;;;
      ret 0
  end.

(** [protosh_history] *)
Definition protosh_history (cmds : commands) (cmd : command) : M Z :=
  if argc cmd =? 1 then
    len <- gets (fun st => history_len (hist st)) ;;
    for_each (seqZ 0 len)
      (fun i =>
         p <- history_get i ;;
         text <- load p ;;
         print (pretty i +:+ " " +:+ text +:+ LF)) ;;;
    ret 1
  else if 1 <? argc cmd then
    match argv cmd !! 1%nat with
    | None => fail NullPointer
    | Some arg =>
        if String.eqb arg "-c" then
          clear_history ;;; ret 0
        else
          match strtol arg with
          | None =>
              eprint ("error: cannot convert to number" +:+ LF) ;;; ret 1
          | Some loffset =>
              let offset := int_of_long loffset in
              len <- gets (fun st => history_len (hist st)) ;;
              if len <? offset then
                eprint ("error: offset > number of items" +:+ LF) ;;; ret 1
              else replay cmds cmd offset
          end
    end
  else ret 0.

(** *** Dispatch *)

(** [builtin_func], called as [protosh_execute] calls it: with [args]
    alone, through the type of the table, a function of one [char **]
    argument.  The last entry is [&protosh_history], a function of two
    parameters of other types: [cmds] is given [args] and [cmd] nothing, and
    the call is undefined.  [protosh_history] is reached with a pipeline and
    a command by [exec_commands] only. *)
Definition builtin_func (i : nat) (args : list string) : M Z :=
  match i with
  | 0%nat => protosh_cd args
  | 1%nat => protosh_help args
  | 2%nat => protosh_exit args
  | _ => fail UndefinedCall
  end.

(** The [for] loop of [protosh_execute]: the first [i] with
    [strcmp(args[0], builtin_str[i]) == 0]. *)
Fixpoint find_builtin (name : string) (names : list string) (i : nat) : option nat :=
  match names with
  | [] => None
  | n :: rest => if String.eqb name n then Some i else find_builtin name rest (S i)
  end.

(** [protosh_execute] *)
Definition protosh_execute (args : list string) : M Z :=
  match args with
  | [] => ret 1
  | name :: _ =>
      match find_builtin name builtin_str 0 with
      | Some i => builtin_func i args
      | None => protosh_launch args
      end
  end.

(** *** Reading and splitting a line *)

(** The [while (1)] loop of [protosh_read_line] over the bytes [pending] on
    [stdin]; [bytes] is the content of [buffer] below [position]. *)
Fixpoint read_line_loop (pending : list ascii) (buffer : nat) (bytes : list ascii)
    (position bufsize : Z) : M nat :=
  match pending with
  | [] => set_stdin [] ;;; exit EXIT_SUCCESS
  | c :: rest =>
      if char_code c =? 10 then
        set_stdin rest ;;;
        store_buffer buffer (c_string bytes) ;;;
        ret buffer
      else
        let bytes := bytes ++ [c] in
        let position := position + 1 in
        if bufsize <=? position then
          ok <- alloc_ok ;;
          if ok : bool then
            read_line_loop rest buffer bytes position (bufsize + protosh_RL_BUFSIZE)
          else
            set_stdin rest ;;;
            eprint ("protosh: allocation error" +:+ LF) ;;;
            exit EXIT_FAILURE
        else read_line_loop rest buffer bytes position bufsize
  end.

(** [protosh_read_line] *)
Definition protosh_read_line : M nat :=
  ok <- alloc_ok ;;
  if ok : bool then
    buffer <- new_buffer "" ;;
    pending <- gets (fun st => stdin (io st)) ;;
    read_line_loop pending buffer [] 0 protosh_RL_BUFSIZE
  else
    eprint ("protosh: allocation error" +:+ LF) ;;;
    exit EXIT_FAILURE.

(** The [while (token != NULL)] loop of [protosh_split_line]; [tokens] is
    the content of the array below [position]. *)
Fixpoint split_line_loop (remaining : list string) (tokens : list string)
    (position bufsize : Z) : M (list string) :=
  match remaining with
  | [] => ret tokens
  | token :: rest =>
      let tokens := tokens ++ [token] in
      let position := position + 1 in
      if bufsize <=? position then
        ok <- alloc_ok ;;
        if ok : bool then
          split_line_loop rest tokens position (bufsize + protosh_TOK_BUFSIZE)
        else
          eprint ("protosh: allocation error" +:+ LF) ;;;
          exit EXIT_FAILURE
      else split_line_loop rest tokens position bufsize
  end.

(** [protosh_split_line].  The first call of [strtok] cuts the line after
    its first token, before the loop is entered.  The array [tokens] and the
    tokens (pointers into the line) are held by value: of the [malloc] and
    [realloc] of the array the embedding has the answers of the allocator,
    and no heap cell. *)
Definition protosh_split_line (line : nat) : M (list string) :=
  ok <- alloc_ok ;;
  if ok : bool then
    text <- load (Some line) ;;
    store_buffer line (strtok_cut text false) ;;;
    split_line_loop (strtok_tokens text "") [] 0 protosh_TOK_BUFSIZE
  else
    eprint ("protosh: allocation error" +:+ LF) ;;;
    exit EXIT_FAILURE.

(** *** The interpreter loop *)

(** One turn of the [do ... while (status)] loop of [protosh_loop]; the
    array [args] is held by value, so [free(args)] has no counterpart. *)
Definition protosh_loop_body : M Z :=
  print "> " ;;;
  line <- protosh_read_line ;;
  args <- protosh_split_line line ;;
  status <- protosh_execute args ;;
  free (Some line) ;;;
  ret status.

(** [protosh_loop], for at most [fuel] turns. *)
Fixpoint protosh_loop (fuel : nat) : M unit :=
  match fuel with
  | O => fun _ => Unfinished
  | S fuel' =>
      status <- protosh_loop_body ;;
      if status =? 0 then ret tt else protosh_loop fuel'
  end.


End Shell.

(** The state [main] starts in: the statics are zero-initialised. *)
Definition initial_state (input : list ascii) (alloc_results syscall_results : list bool)
    (child_runs : list child_run) : state :=
  mk_state
    (mk_memory ∅ 0 alloc_results)
    (mk_store None 0)
    (mk_replay_context None None None)
    (mk_world input [] [] [] [] syscall_results child_runs).

(** ** The missing pipeline functions, from the spec *)

(** The substrings of [line] between occurrences of the pipe character;
    [cur] is the stage being read. *)
Fixpoint split_stages (line : string) (cur : string) : list string :=
  match line with
  | EmptyString => [cur]
  | String c rest =>
      if char_code c =? 124 then cur :: split_stages rest ""
      else split_stages rest (cur +:+ String c "")
  end.

(** Modelled from the spec: [parse_commands_with_pipes] is missing from
    [main.c].  "Given a raw line, split on the pipe delimiter into stage
    substrings; for each stage, split on whitespace into argument words,
    discarding empty tokens, producing a Command." *)
Definition parse_commands_with_pipes_spec (line : string) : commands :=
  (fun stage => command_of_args (strtok_tokens stage "")) <$> split_stages line "".

(** Modelled from the spec: [exec_commands] is missing from [main.c].  A
    single stage whose name is a builtin runs in-process ("each handler
    receives the full Command", and "history additionally receives the
    enclosing Pipeline": [protosh_history] is called with its two
    arguments), another name is spawned and an empty argument list is a
    no-op; in a pipeline of several stages no name is a builtin and every
    stage with an argument word is spawned and waited for.  Replays nest, so
    the definition is by recursion on a bound [fuel] on the nesting depth. *)
Fixpoint exec_commands_spec (fuel : nat) (cmds : commands) : M Z :=
  match fuel with
  | O => fun _ => Unfinished
  | S fuel' =>
      match cmds with
      | [cmd] =>
          match argv cmd with
          | name :: _ =>
              if String.eqb name "history" then
                protosh_history parse_commands_with_pipes_spec (exec_commands_spec fuel')
                  cmds cmd
              else protosh_execute (argv cmd)
          | [] => ret 1
          end
      | _ =>
          for_each (seqZ 0 (Z.of_nat (length cmds)))
            (fun i =>
               match argv <$> cmds !! Z.to_nat i with
               | Some (name :: args) => _ <- protosh_launch (name :: args) ;; ret tt
               | _ => ret tt
               end) ;;;
          ret 1
      end
  end.

(** ** Specification vocabulary *)

(** A text has a parseable leading integer when, after white space and an
    optional sign, it starts with a decimal digit. *)
Definition has_leading_integer (s : string) : Prop :=
  exists (ws sign : string) (d : ascii) (rest : string),
    s = ws +:+ sign +:+ String d rest
    /\ Forall (fun c => isspace c = true) (list_ascii_of_string ws)
    /\ (sign = "" \/ sign = "+" \/ sign = "-")
    /\ is_Some (digit_value d).


(** The diagnostics of [protosh_history]. *)
Definition parse_error : diagnostic := Message ("error: cannot convert to number" +:+ LF).
Definition range_error : diagnostic := Message ("error: offset > number of items" +:+ LF).

(** All three replay pointers [NULL]. *)
Definition null_context : replay_context := mk_replay_context None None None.

(** ** Example states *)

(** A store of capacity 3 holding ["history 1"] and ["help"], as two calls of
    [add_to_history] leave it. *)
Definition two_entries : state :=
  mk_state
    (mk_memory (<[1%nat := "help"]> (<[0%nat := "history 1"]> ∅)) 2 [])
    (mk_store (Some [Some 0%nat; Some 1%nat; None]) 2)
    null_context
    (mk_world [] [] [] [] [] [] []).

(** ** The history store as a sequence of texts *)

(** The text behind a slot of the history array. *)
Definition slot_text (m : memory) (p : option nat) : option string :=
  match p with
  | Some l => heap m !! l
  | None => None
  end.

(** What [history[0]], ..., [history[history_len - 1]] point to, oldest
    first; [None] when one of them cannot be read. *)
Definition history_entries (st : state) : option (list string) :=
  let len := history_len (hist st) in
  match history (hist st) with
  | None => if len =? 0 then Some [] else None
  | Some slots =>
      if (0 <=? len) && (len <=? Z.of_nat (length slots))
      then mapM (slot_text (mem st)) (take (Z.to_nat len) slots)
      else None
  end.

(** Every live buffer was allocated: its location is below [next_loc]. *)
Definition heap_bounded (m : memory) : Prop :=
  forall l, is_Some (heap m !! l) -> (l < next_loc m)%nat.

(** A slot past the entries: [NULL], or a pointer to a buffer that was
    allocated and released. *)
Definition stale (m : memory) (p : option nat) : Prop :=
  match p with
  | None => True
  | Some l => heap m !! l = None /\ (l < next_loc m)%nat
  end.

(** The store holds the entries [es], oldest first, each a live buffer of
    its own with its text; the array, once allocated, has
    [HISTORY_MAXITEMS] slots, and those past the entries are stale. *)
Definition represents (HISTORY_MAXITEMS : Z) (st : state) (es : list (nat * string)) : Prop :=
  heap_bounded (mem st)
  /\ history_len (hist st) = Z.of_nat (length es)
  /\ Z.of_nat (length es) <= HISTORY_MAXITEMS
  /\ NoDup es.*1
  /\ Forall (fun e => heap (mem st) !! e.1 = Some e.2) es
  /\ match history (hist st) with
     | None => es = []
     | Some slots =>
         length slots = Z.to_nat HISTORY_MAXITEMS
         /\ take (length es) slots = (fun e => Some e.1) <$> es
         /\ Forall (stale (mem st)) (drop (length es) slots)
     end.

(** The invariant of the history store. *)
Definition store_ok (HISTORY_MAXITEMS : Z) (st : state) : Prop :=
  exists es, represents HISTORY_MAXITEMS st es.

(** FIFO insertion into a sequence of capacity [HISTORY_MAXITEMS]: at full
    capacity the first element goes. *)
Definition push {A} (HISTORY_MAXITEMS : Z) (es : list A) (e : A) : list A :=
  (if Z.of_nat (length es) =? HISTORY_MAXITEMS then drop 1 es else es) ++ [e].

(** The last [n] elements of a sequence. *)
Definition keep_last {A} (n : nat) (l : list A) : list A :=
  drop (length l - n)%nat l.

(** [add_to_history] on each line in turn. *)
Fixpoint record_all (HISTORY_MAXITEMS : Z) (lines : list string) : M unit :=
  match lines with
  | [] => ret tt
  | line :: rest =>
      _ <- add_to_history HISTORY_MAXITEMS line ;;
      record_all HISTORY_MAXITEMS rest
  end.

(** No allocation request will fail. *)
Definition no_alloc_failure (st : state) : Prop :=
  Forall (fun b => b = true) (allocs (mem st)).

(** What a replayed command can do to the history store. *)
Inductive store_op :=
  | RecordLine (line : string)
  | ClearAll.

Definition run_store_op (HISTORY_MAXITEMS : Z) (op : store_op) : M Z :=
  match op with
  | RecordLine line => add_to_history HISTORY_MAXITEMS line
  | ClearAll => clear_history
  end.

Fixpoint run_store_ops (HISTORY_MAXITEMS : Z) (ops : list store_op) : M unit :=
  match ops with
  | [] => ret tt
  | op :: rest =>
      _ <- run_store_op HISTORY_MAXITEMS op ;;
      run_store_ops HISTORY_MAXITEMS rest
  end.

(** ** Allocation failures *)

(** The outcome [o] of a function called in [st] follows the fatal policy:
    the function returns or exits; [used] being the results the allocator
    gave during the call, a failed allocation always ends in
    [exit(EXIT_FAILURE)], and without one the function returns or exits with
    [EXIT_SUCCESS]. *)
Definition fatal_on_alloc_failure {A} (st : state) (o : outcome A) : Prop :=
  match o with
  | Ret _ st' =>
      exists used, allocs (mem st) = used ++ allocs (mem st') /\ false ∉ used
  | Exit n st' =>
      exists used, allocs (mem st) = used ++ allocs (mem st')
        /\ (false ∈ used -> n = EXIT_FAILURE)
        /\ (false ∉ used -> n = EXIT_SUCCESS)
  | Fault _ _ => False
  | Unfinished => False
  end.

(** The outcome [o] of a function called in [st] follows the error-value
    policy: the function returns, with 0 exactly when an allocation failed. *)
Definition returns_zero_on_alloc_failure (st : state) (o : outcome Z) : Prop :=
  match o with
  | Ret v st' =>
      exists used, allocs (mem st) = used ++ allocs (mem st')
        /\ (false ∈ used -> v = 0)
        /\ (false ∉ used -> v = 1)
  | _ => False
  end.

(** [two_entries] with an allocator about to fail. *)
Definition two_entries_no_memory : state :=
  mk_state
    (mk_memory (heap (mem two_entries)) (next_loc (mem two_entries)) [false])
    (hist two_entries) (ctx two_entries) (io two_entries).

(** The command made of the words [history] and [arg]. *)
Definition history_command (arg : string) : command :=
  command_of_args ["history"; arg].

(** ** The listing *)

(** The line [history] prints for the entry of index [i]: the format
    ["%d %s\n"]. *)
Definition history_line (i : Z) (text : string) : string :=
  pretty i +:+ " " +:+ text +:+ LF.

(** The lines printed for the entries [texts], the first of index [from]. *)
Definition listing (from : nat) (texts : list string) : list string :=
  imap (fun i text => history_line (Z.of_nat (from + i)) text) texts.

(** [lines] written to [stdout], one [printf] each. *)
Definition printed (lines : list string) (st : state) : state :=
  with_io (fun w =>
    mk_world (stdin w) (stdout w ++ lines) (stderr w) (chdirs w) (spawned w) (syscalls w)
      (children w)) st.

(** ** Frame *)

(** The outcome [o] of a function called in [st] leaves the history store
    ([history] and [history_len]) as it was. *)
Definition keeps_store {A} (st : state) (o : outcome A) : Prop :=
  match o with
  | Ret _ st' => hist st' = hist st
  | Exit _ st' => hist st' = hist st
  | Fault _ st' => hist st' = hist st
  | Unfinished => True
  end.

(** ** [is_history_command] *)

(** [s[i]], for [i] below the length of [s]. *)
Definition char_at (s : string) (i : nat) : ascii :=
  match String.get i s with
  | Some c => c
  | None => ascii_of_nat 0
  end.

(** The [for] loop of [is_history_command] over the indices it has left. *)
Fixpoint history_key_loop (input key : string) (indices : list nat) : Z :=
  match indices with
  | [] => 1
  | i :: rest =>
      if Ascii.eqb (char_at input i) (char_at key i) then history_key_loop input key rest
      else 0
  end.

(** [is_history_command] *)
Definition is_history_command (input : string) : Z :=
  let key := "history" in
  if (String.length input <? String.length key)%nat then 0
  else history_key_loop input key (seq 0 (String.length key)).

(** ** Input lines and words *)

(** The byte [\n]. *)
Definition is_newline (c : ascii) : bool := char_code c =? 10.


(** The words [protosh_split_line] finds on a line as [protosh_read_line]
    stores it. *)
Definition line_words (line : list ascii) : list string :=
  strtok_tokens (c_string line) "".

(** No byte of the text is a token delimiter. *)
Definition delimiter_free (s : string) : Prop :=
  Forall (fun c => is_tok_delim c = false) (list_ascii_of_string s).

(** A word: a non-empty text without delimiter. *)
Definition is_word (s : string) : Prop := s <> "" /\ delimiter_free s.

(** The state [st'] differs from [st] by the allocator's oracle at most. *)
Definition same_but_oracle (st st' : state) : Prop :=
  heap (mem st') = heap (mem st)
  /\ next_loc (mem st') = next_loc (mem st)
  /\ hist st' = hist st
  /\ ctx st' = ctx st
  /\ io st' = io st.

(** The worlds [w] and [w'] differ by the pending input at most. *)
Definition same_but_stdin (w w' : world) : Prop :=
  stdout w' = stdout w
  /\ stderr w' = stderr w
  /\ chdirs w' = chdirs w
  /\ spawned w' = spawned w
  /\ syscalls w' = syscalls w
  /\ children w' = children w.

(** [pending] starts with the line [line], ended by a [\n], and goes on
    with [rest]. *)
Definition first_line (pending line rest : list ascii) : Prop :=
  exists c, pending = line ++ c :: rest
    /\ is_newline c = true
    /\ Forall (fun b => is_newline b = false) line.

(** ** The buffers of the history store *)

(** Every live buffer is an entry of the store. *)
Definition only_entries (st : state) (es : list (nat * string)) : Prop :=
  forall l, is_Some (heap (mem st) !! l) -> l ∈ es.*1.

(** The heap after [add_to_history] has stored [line] in the new buffer [l]
    of a store that held [es]: at full capacity the buffer of the oldest
    entry is released. *)
Definition heap_after_push (HISTORY_MAXITEMS : Z) (hp : gmap nat string)
    (es : list (nat * string)) (l : nat) (line : string) : gmap nat string :=
  if Z.of_nat (length es) =? HISTORY_MAXITEMS then
    match es with
    | e :: _ => delete e.1 (<[l := line]> hp)
    | [] => <[l := line]> hp
    end
  else <[l := line]> hp.

(** ** Forked children *)

(** The result of the next [fork]. *)
Definition fork_succeeds (w : world) : bool :=
  match syscalls w with
  | [] => true
  | ok :: _ => ok
  end.

(** The child the next successful [fork] creates. *)
Definition child_to_come (w : world) : child_run :=
  match children w with
  | [] => mk_child_run 0 [Exited]
  | c :: _ => c
  end.

(** Among the reports of [waitpid] there is one that the child has exited
    or was killed. *)
Fixpoint ends (reports : list wait_status) : bool :=
  match reports with
  | [] => false
  | Stopped :: rest => ends rest
  | Exited :: _ => true
  | Signaled :: _ => true
  end.

(** A child that comes to an end and reads nothing of the interpreter's
    input. *)
Definition quiet (c : child_run) : Prop :=
  consumed c = 0%nat /\ ends (reports c) = true.

(** The first word of a line is [word]. *)
Definition first_word (word : string) (line : list ascii) : Prop :=
  hd_error (line_words line) = Some word.
(** ** Facts about the C library model *)

Lemma skip_spaces_app (ws s : string) :
  Forall (fun c => isspace c = true) (list_ascii_of_string ws) ->
  skip_spaces (ws +:+ s) = skip_spaces s.
Proof.
  induction ws as [|c ws IH]; simpl; intros H; [done|].
  inversion H as [|? ? Hc Hws]; subst. rewrite Hc. auto.
Qed.

Lemma skip_spaces_split (s : string) :
  exists ws, s = ws +:+ skip_spaces s
    /\ Forall (fun c => isspace c = true) (list_ascii_of_string ws).
Proof.
  induction s as [|c s IH]; simpl.
  - exists "". split; [done | constructor].
  - destruct (isspace c) eqn:Hc.
    + destruct IH as (ws & Heq & Hws).
      exists (String c ws). split; [| constructor; done].
      change (String c ws +:+ skip_spaces s) with (String c (ws +:+ skip_spaces s)).
      by rewrite <- Heq.
    + exists "". split; [done | constructor].
Qed.


Lemma digit_not_space (d : ascii) : is_Some (digit_value d) -> isspace d = false.
Proof.
  unfold digit_value, isspace. intros [v Hv].
  destruct ((48 <=? char_code d) && (char_code d <=? 57)) eqn:E; [|done].
  apply andb_true_iff in E as [E1 E2].
  apply Z.leb_le in E1. apply Z.leb_le in E2.
  apply orb_false_iff. split.
  - apply Z.eqb_neq. lia.
  - apply andb_false_iff. right. apply Z.leb_gt. lia.
Qed.


(** [strtol] converts something exactly on the texts with a leading integer. *)
Lemma strtol_is_Some (s : string) : is_Some (strtol s) <-> has_leading_integer s.
Proof.
  split.
  - intros [v Hv]. unfold strtol in Hv.
    destruct (skip_spaces_split s) as (ws & Heq & Hws).
    destruct (skip_spaces s) as [|c body] eqn:Hs; [simpl in Hv; done|].
    assert (Hcases : (c = "-"%char \/ c = "+"%char) \/ (c <> "-"%char /\ c <> "+"%char)).
    { destruct (decide (c = "-"%char)); [by left; left|].
      destruct (decide (c = "+"%char)); [by left; right|]. by right. }
    destruct Hcases as [Hsign | [Hm Hp]].
    + assert (exists d rest, body = String d rest /\ is_Some (digit_value d)) as (d & rest & -> & Hd).
      { destruct Hsign as [-> | ->]; simpl in Hv;
          (destruct body as [|d rest]; [done|]);
          (destruct (digit_value d) eqn:Hd; [|done]); eauto. }
      exists ws, (String c ""), d, rest. repeat split; try done.
      destruct Hsign as [-> | ->]; auto.
    + assert (is_Some (digit_value c)) as Hd.
      { destruct c as [[] [] [] [] [] [] [] []]; simpl in Hv; try done;
          try (by exfalso; apply Hm); try (by exfalso; apply Hp);
          match type of Hv with context [digit_value ?x] =>
            destruct (digit_value x) eqn:Hd; [eauto | done] end. }
      exists ws, "", c, body. repeat split; try done. by left.
  - intros (ws & sign & d & rest & -> & Hws & Hsign & Hd).
    unfold strtol. rewrite skip_spaces_app by done.
    pose proof (digit_not_space d Hd) as Hnd.
    destruct Hd as [v Hv].
    destruct Hsign as [-> | [-> | ->]]; simpl.
    + rewrite Hnd.
      destruct d as [[] [] [] [] [] [] [] []]; simpl in *; try done; rewrite ?Hv; eauto.
    + rewrite Hv. eauto.
    + rewrite Hv. eauto.
Qed.

Lemma strtol_None (s : string) : strtol s = None <-> ~ has_leading_integer s.
Proof.
  rewrite <- strtol_is_Some. destruct (strtol s) as [v|].
  - split; [done | intros H; exfalso; apply H; eauto].
  - split; [intros _ [? ?]; done | done].
Qed.

(** The conversion to [int] keeps the values of the range of [int]. *)
Lemma int_of_long_small (v : Z) : INT_MIN <= v <= INT_MAX -> int_of_long v = v.
Proof.
  unfold INT_MIN, INT_MAX, int_of_long. intros H.
  rewrite Z.mod_small by lia. lia.
Qed.

Lemma int_of_long_range (v : Z) : INT_MIN <= int_of_long v <= INT_MAX.
Proof.
  unfold INT_MIN, INT_MAX, int_of_long.
  pose proof (Z.mod_pos_bound (v + 2 ^ 31) (2 ^ 32) ltac:(lia)). lia.
Qed.

(** ** The [history] builtin: argument errors *)

Section History.

Variable parse : string -> commands.
Variable exec : commands -> M Z.

(** With an argument that is not [-c], [protosh_history] is decided by
    [strtol] and the range check. *)
Lemma protosh_history_numeric (cmds : commands) (cmd : command) (arg : string) (st : state) :
  1 < argc cmd ->
  argv cmd !! 1%nat = Some arg ->
  arg <> "-c" ->
  protosh_history parse exec cmds cmd st =
    match strtol arg with
    | None => Ret 1 (report parse_error st)
    | Some loffset =>
        if history_len (hist st) <? int_of_long loffset
        then Ret 1 (report range_error st)
        else replay parse exec cmds cmd (int_of_long loffset) st
    end.
Proof.
  intros Hargc Harg Hc. unfold protosh_history.
  destruct (argc cmd =? 1) eqn:E1; [apply Z.eqb_eq in E1; lia|].
  destruct (1 <? argc cmd) eqn:E2; [|apply Z.ltb_ge in E2; lia].
  rewrite Harg.
  destruct (String.eqb arg "-c") eqn:E3; [apply String.eqb_eq in E3; done|].
  destruct (strtol arg) as [loffset|]; [|reflexivity].
  unfold bind, gets.
  destruct (history_len (hist st) <? int_of_long loffset); reflexivity.
Qed.

(** The replay path never ends like the range check's rejection: it
    faults, or returns 1 without a word on [stderr], or returns 0. *)
Lemma replay_is_not_rejection (cmds : commands) (cmd : command) (offset : Z) (st : state) :
  replay parse exec cmds cmd offset st <> Ret 1 (report range_error st).
Proof.
  unfold replay, bind, strdup, strdup_text, bind.
  destruct (history_get offset st) as [entry st1| | |] eqn:Hget; try done.
  assert (st1 = st) as ->.
  { unfold history_get in Hget. repeat case_match; congruence. }
  destruct (load entry st) as [text st1| | |] eqn:Hload; try done.
  assert (st1 = st) as ->.
  { unfold load in Hload. repeat case_match; congruence. }
  unfold alloc_ok.
  destruct (allocs (mem st)) as [|[] rest] eqn:Hallocs; simpl.
  - unfold load; simpl. rewrite lookup_insert_eq.
    unfold set_replay_context, modify.
    match goal with |- context [exec ?c ?s] => destruct (exec c s) end; try done.
    unfold free. repeat case_match; done.
  - unfold load; simpl. rewrite lookup_insert_eq.
    unfold set_replay_context, modify.
    match goal with |- context [exec ?c ?s] => destruct (exec c s) end; try done.
    unfold free. repeat case_match; done.
  - unfold ret. intros Heq.
    apply (f_equal (fun o => match o with Ret _ s => length (stderr (io s)) | _ => O end)) in Heq.
    simpl in Heq. rewrite length_app in Heq. simpl in Heq. lia.
Qed.

(** C7.  A [history] argument that is neither [-c] nor a text with a leading
    integer: the parse error goes to [stderr], nothing is replayed (no call
    of [exec_commands]: the whole state but [stderr] is as before, the
    history store included), and the handler returns 1, for the loop to
    continue. *)
Theorem history_non_numeric_argument
    (cmds : commands) (cmd : command) (arg : string) (st : state) :
  1 < argc cmd ->
  argv cmd !! 1%nat = Some arg ->
  arg <> "-c" ->
  ~ has_leading_integer arg ->
  protosh_history parse exec cmds cmd st = Ret 1 (report parse_error st)
  /\ hist (report parse_error st) = hist st
  /\ mem (report parse_error st) = mem st
  /\ ctx (report parse_error st) = ctx st
  /\ stderr (io (report parse_error st)) = stderr (io st) ++ [parse_error]
  /\ stdout (io (report parse_error st)) = stdout (io st)
  /\ spawned (io (report parse_error st)) = spawned (io st).
Proof.
  intros Hargc Harg Hc Hnum.
  rewrite (protosh_history_numeric cmds cmd arg st Hargc Harg Hc).
  apply strtol_None in Hnum. rewrite Hnum. repeat split.
Qed.

(** C6, as the code has it.  The number compared with [history_len] is
    not the value [strtol] gives but [offset], that value converted to
    [int] (the value itself when it is in the range of [int]).  When
    [offset] is greater than [history_len] the range error goes to [stderr],
    nothing else changes (no replay, the store and the rest of the state as
    before) and the handler returns 1; the test is strict, so with [offset]
    equal to [history_len] the handler goes on to the replay path, which
    never ends like the rejection. *)
Theorem history_offset_range_check
    (cmds : commands) (cmd : command) (arg : string) (loffset : Z) (st : state) :
  1 < argc cmd ->
  argv cmd !! 1%nat = Some arg ->
  arg <> "-c" ->
  strtol arg = Some loffset ->
  (history_len (hist st) < int_of_long loffset ->
     protosh_history parse exec cmds cmd st = Ret 1 (report range_error st)
     /\ hist (report range_error st) = hist st
     /\ mem (report range_error st) = mem st
     /\ ctx (report range_error st) = ctx st
     /\ stderr (io (report range_error st)) = stderr (io st) ++ [range_error]
     /\ stdout (io (report range_error st)) = stdout (io st)
     /\ spawned (io (report range_error st)) = spawned (io st))
  /\ (int_of_long loffset = history_len (hist st) ->
     protosh_history parse exec cmds cmd st = replay parse exec cmds cmd (history_len (hist st)) st
     /\ protosh_history parse exec cmds cmd st <> Ret 1 (report range_error st))
  /\ (INT_MIN <= loffset <= INT_MAX -> int_of_long loffset = loffset).
Proof.
  intros Hargc Harg Hc Hnum.
  rewrite (protosh_history_numeric cmds cmd arg st Hargc Harg Hc), Hnum.
  split_and!.
  - intros Hgt. apply Z.ltb_lt in Hgt. rewrite Hgt. repeat split.
  - intros Heq. rewrite Heq, Z.ltb_irrefl. split; [done|].
    apply replay_is_not_rejection.
  - apply int_of_long_small.
Qed.

(** C10, as the code has it.  The index is [offset], the value of
    [strtol] converted to [int].  When [offset] is negative (and the
    argument is not [-c]) the range check, which only has an upper bound,
    lets it through, and the replay path reads [history[offset]]: out of the
    bounds of the array when there is one, and through [NULL] before the
    first [add_to_history]. *)
Theorem history_negative_offset_out_of_bounds
    (cmds : commands) (cmd : command) (arg : string) (loffset : Z) (st : state) :
  1 < argc cmd ->
  argv cmd !! 1%nat = Some arg ->
  arg <> "-c" ->
  strtol arg = Some loffset ->
  int_of_long loffset < 0 ->
  0 <= history_len (hist st) ->
  let N := int_of_long loffset in
  let f := match history (hist st) with
           | None => NullPointer
           | Some _ => OutOfBounds N
           end in
  protosh_history parse exec cmds cmd st <> Ret 1 (report range_error st)
  /\ history_get N st = Fault f st
  /\ protosh_history parse exec cmds cmd st = Fault f st.
Proof.
  intros Hargc Harg Hc Hnum Hneg Hlen N f.
  assert (Hget : history_get N st = Fault f st).
  { unfold history_get, f. destruct (history (hist st)); [|done].
    destruct (0 <=? N) eqn:E; [apply Z.leb_le in E; unfold N in E; lia|]. done. }
  assert (Hrun : protosh_history parse exec cmds cmd st = Fault f st).
  { rewrite (protosh_history_numeric cmds cmd arg st Hargc Harg Hc), Hnum.
    destruct (history_len (hist st) <? int_of_long loffset) eqn:E;
      [apply Z.ltb_lt in E; lia|].
    unfold replay, bind. fold N. by rewrite Hget. }
  repeat split; try done. by rewrite Hrun.
Qed.

(** C9.  An empty argument list ([args[0] == NULL]): [protosh_execute]
    returns 1 at once, in the state it was called in; no process was
    spawned, no builtin has run, nothing was printed.  So a line of blanks
    typed at the prompt only consumes the line: the turn of the loop ends
    with status 1, nothing spawned and nothing printed after the prompt. *)
Theorem execute_empty_command_is_noop (st : state) :
  protosh_execute [] st = Ret 1 st
  /\ (forall v st', protosh_execute [] st = Ret v st' ->
        v = 1
        /\ spawned (io st') = spawned (io st)
        /\ stdout (io st') = stdout (io st)
        /\ stderr (io st') = stderr (io st)
        /\ hist st' = hist st /\ mem st' = mem st /\ ctx st' = ctx st)
  /\ (forall rest : list ascii,
        exists st',
          protosh_loop_body
            (initial_state (list_ascii_of_string ("  " +:+ LF) ++ rest) [] [] []) = Ret 1 st'
          /\ stdin (io st') = rest
          /\ stdout (io st') = ["> "]
          /\ stderr (io st') = []
          /\ spawned (io st') = []).
Proof.
  split_and!; [reflexivity | |].
  - intros v st' H. injection H as <- <-. repeat split.
  - intros rest. eexists. split_and!; [vm_compute; reflexivity | reflexivity..].
Qed.

End History.

(** ** Allocation failures in the reader and the tokenizer *)

Lemma alloc_ok_cases (st : state) :
  exists (b : bool) (st1 : state) (used : list bool),
    alloc_ok st = Ret b st1
    /\ allocs (mem st) = used ++ allocs (mem st1)
    /\ (b = true -> false ∉ used)
    /\ (b = false -> used = [false])
    /\ heap (mem st1) = heap (mem st).
Proof.
  unfold alloc_ok. destruct st as [[hp nl al] h c w]; simpl.
  destruct al as [|[] rest]; simpl.
  - eexists true, _, []. split_and!; try done. by intros _ ?%elem_of_nil.
  - eexists true, _, [true]. split_and!; try done.
    intros _ Hin. by apply list_elem_of_singleton in Hin.
  - eexists false, _, [false]. split_and!; done.
Qed.

Lemma fatal_after {A} (st st1 : state) (used0 : list bool) (o : outcome A) :
  allocs (mem st) = used0 ++ allocs (mem st1) ->
  false ∉ used0 ->
  fatal_on_alloc_failure st1 o ->
  fatal_on_alloc_failure st o.
Proof.
  intros Hused Hok. destruct o as [a st'|n st'|f st'|]; simpl; try done.
  - intros (used & Hused' & Hok'). exists (used0 ++ used).
    split; [by rewrite Hused, Hused', app_assoc|].
    intros Hin. apply elem_of_app in Hin as [?|?]; done.
  - intros (used & Hused' & Hfail & Hsucc). exists (used0 ++ used).
    split_and!; [by rewrite Hused, Hused', app_assoc| |].
    + intros Hin. apply elem_of_app in Hin as [?|?]; [done|auto].
    + intros Hnin. apply Hsucc. intros Hin. apply Hnin, elem_of_app. by right.
Qed.

(** The loop of [protosh_read_line], with a live [buffer]. *)
Lemma read_line_loop_fatal (pending : list ascii) (buffer : nat) (bytes : list ascii)
    (position bufsize : Z) (st : state) :
  is_Some (heap (mem st) !! buffer) ->
  fatal_on_alloc_failure st (read_line_loop pending buffer bytes position bufsize st).
Proof.
  revert bytes position bufsize st.
  induction pending as [|c rest IH]; intros bytes position bufsize st [old Hlive].
  - simpl. exists []. split_and!; try done. by intros ?%elem_of_nil.
  - cbn [read_line_loop]. destruct (char_code c =? 10).
    + unfold bind, set_stdin, modify, store_buffer; simpl. rewrite Hlive. simpl.
      exists []. split; [done|]. by intros ?%elem_of_nil.
    + destruct (bufsize <=? position + 1).
      * unfold bind at 1.
        destruct (alloc_ok_cases st) as (b & st1 & used & -> & Hused & Htrue & Hfalse & Hheap).
        destruct b.
        -- eapply fatal_after; [exact Hused | by apply Htrue |].
           apply IH. rewrite Hheap. by exists old.
        -- unfold bind, set_stdin, modify, eprint; simpl.
           exists used. split_and!; [done | done |].
           rewrite (Hfalse eq_refl). intros Hnin. exfalso. apply Hnin. left.
      * apply IH. by exists old.
Qed.

Lemma protosh_read_line_fatal (st : state) :
  fatal_on_alloc_failure st (protosh_read_line st).
Proof.
  unfold protosh_read_line. unfold bind at 1.
  destruct (alloc_ok_cases st) as (b & st1 & used & -> & Hused & Htrue & Hfalse & Hheap).
  destruct b.
  - eapply fatal_after; [exact Hused | by apply Htrue |].
    unfold bind at 1. unfold new_buffer. cbv zeta.
    unfold bind at 1. unfold gets.
    match goal with |- fatal_on_alloc_failure _ (read_line_loop _ _ _ _ _ ?s) =>
      apply (fatal_after st1 s []); [reflexivity | by intros ?%elem_of_nil |]
    end.
    apply read_line_loop_fatal. simpl. rewrite lookup_insert_eq. eauto.
  - unfold bind, eprint, modify; simpl.
    exists used. split_and!; [done | done |].
    rewrite (Hfalse eq_refl). intros Hnin. exfalso. apply Hnin. left.
Qed.

(** The loop of [protosh_split_line]. *)
Lemma split_line_loop_fatal (remaining tokens : list string) (position bufsize : Z)
    (st : state) :
  fatal_on_alloc_failure st (split_line_loop remaining tokens position bufsize st).
Proof.
  revert tokens position bufsize st.
  induction remaining as [|token rest IH]; intros tokens position bufsize st.
  - simpl. exists []. split; [done|]. by intros ?%elem_of_nil.
  - cbn [split_line_loop]. destruct (bufsize <=? position + 1).
    + unfold bind at 1.
      destruct (alloc_ok_cases st) as (b & st1 & used & -> & Hused & Htrue & Hfalse & Hheap).
      destruct b.
      * eapply fatal_after; [exact Hused | by apply Htrue |]. apply IH.
      * unfold bind, eprint, modify; simpl.
        exists used. split_and!; [done | done |].
        rewrite (Hfalse eq_refl). intros Hnin. exfalso. apply Hnin. left.
    + apply IH.
Qed.

Lemma protosh_split_line_fatal (line : nat) (st : state) :
  is_Some (heap (mem st) !! line) ->
  fatal_on_alloc_failure st (protosh_split_line line st).
Proof.
  intros [text Hlive]. unfold protosh_split_line. unfold bind at 1.
  destruct (alloc_ok_cases st) as (b & st1 & used & -> & Hused & Htrue & Hfalse & Hheap).
  destruct b.
  - eapply fatal_after; [exact Hused | by apply Htrue |].
    unfold bind at 1. unfold load. rewrite Hheap, Hlive.
    unfold bind at 1. unfold store_buffer. rewrite Hheap, Hlive.
    eapply (fatal_after st1 _ []); cycle 2;
      [apply split_line_loop_fatal | reflexivity | by intros ?%elem_of_nil].
  - unfold bind, eprint, modify; simpl.
    exists used. split_and!; [done | done |].
    rewrite (Hfalse eq_refl). intros Hnin. exfalso. apply Hnin. left.
Qed.

(** ** The history store *)

Lemma memmove_down_insert (p0 : option nat) (rest : list (option nat)) (q : option nat) :
  <[length rest := q]> (memmove_down (p0 :: rest)) = rest ++ [q].
Proof.
  unfold memmove_down. simpl. rewrite Nat.sub_0_r, drop_0.
  assert (Hlen : length (drop (length rest) (p0 :: rest)) = 1%nat)
    by (rewrite length_drop; simpl; lia).
  destruct (drop (length rest) (p0 :: rest)) as [|x [|? ?]]; simpl in Hlen; try lia.
  rewrite insert_app_r_alt by lia. by rewrite Nat.sub_diag.
Qed.

Lemma heap_bounded_insert (hp : gmap nat string) (nl : nat) (al al' : list bool) (text : string) :
  heap_bounded (mk_memory hp nl al) ->
  heap_bounded (mk_memory (<[nl := text]> hp) (S nl) al').
Proof.
  intros Hb l. simpl. destruct (decide (nl = l)) as [<-|Hne]; [lia|].
  rewrite lookup_insert_ne by done. intros H. specialize (Hb l H). simpl in Hb. lia.
Qed.

Lemma heap_bounded_delete (hp : gmap nat string) (nl : nat) (al al' : list bool) (l0 : nat) :
  heap_bounded (mk_memory hp nl al) ->
  heap_bounded (mk_memory (delete l0 hp) nl al').
Proof.
  intros Hb l. simpl. destruct (decide (l0 = l)) as [<-|Hne].
  - rewrite lookup_delete_eq. by intros [? ?].
  - rewrite lookup_delete_ne by done. apply Hb.
Qed.

Lemma heap_bounded_fresh (hp : gmap nat string) (nl : nat) (al : list bool) :
  heap_bounded (mk_memory hp nl al) -> hp !! nl = None.
Proof.
  intros Hb. destruct (hp !! nl) eqn:E; [|done].
  specialize (Hb nl). simpl in Hb. rewrite E in Hb. specialize (Hb ltac:(eauto)). lia.
Qed.

Lemma live_entries_fresh (hp : gmap nat string) (nl : nat) (es : list (nat * string)) :
  hp !! nl = None ->
  Forall (fun e => hp !! e.1 = Some e.2) es ->
  nl ∉ es.*1.
Proof.
  intros Hfresh Hlive Hin. apply list_elem_of_fmap in Hin as ([l s] & -> & Hin).
  rewrite Forall_forall in Hlive. specialize (Hlive _ Hin). simpl in *. congruence.
Qed.

Lemma live_entries_insert (hp : gmap nat string) (nl : nat) (text : string) (es : list (nat * string)) :
  hp !! nl = None ->
  Forall (fun e => hp !! e.1 = Some e.2) es ->
  Forall (fun e => <[nl := text]> hp !! e.1 = Some e.2) es.
Proof.
  intros Hfresh Hlive. eapply Forall_impl; [exact Hlive|].
  intros [l s] Hl. simpl in *. rewrite lookup_insert_ne; [done|]. congruence.
Qed.

Lemma live_entries_delete (hp : gmap nat string) (l0 : nat) (es : list (nat * string)) :
  l0 ∉ es.*1 ->
  Forall (fun e => hp !! e.1 = Some e.2) es ->
  Forall (fun e => delete l0 hp !! e.1 = Some e.2) es.
Proof.
  intros Hnot Hlive. rewrite Forall_forall in *. intros [l s] Hin. simpl.
  rewrite lookup_delete_ne; [by apply (Hlive (l, s))|].
  intros ->. apply Hnot. apply list_elem_of_fmap. by exists (l, s).
Qed.

Lemma stale_after_alloc (hp : gmap nat string) (nl : nat) (al al' : list bool)
    (text : string) (p : option nat) :
  stale (mk_memory hp nl al) p ->
  stale (mk_memory (<[nl := text]> hp) (S nl) al') p.
Proof.
  destruct p as [l|]; [|done]. simpl. intros [Hl Hlt]. split; [|lia].
  rewrite lookup_insert_ne; [done|lia].
Qed.

Lemma stale_after_free (hp : gmap nat string) (nl : nat) (al al' : list bool)
    (l0 : nat) (p : option nat) :
  stale (mk_memory hp nl al) p ->
  stale (mk_memory (delete l0 hp) nl al') p.
Proof.
  destruct p as [l|]; [|done]. simpl. intros [Hl Hlt]. split; [|done].
  destruct (decide (l0 = l)) as [->|Hne]; [apply lookup_delete_eq|].
  by rewrite lookup_delete_ne.
Qed.

Section Store.

Variable HISTORY_MAXITEMS : Z.
Hypothesis capacity_positive : 0 < HISTORY_MAXITEMS.

Lemma represents_entries (st : state) (es : list (nat * string)) :
  represents HISTORY_MAXITEMS st es -> history_entries st = Some es.*2.
Proof.
  intros (Hb & Hlen & Hcap & Hnd & Hlive & Hslots).
  unfold history_entries. rewrite Hlen.
  destruct (history (hist st)) as [slots|].
  - destruct Hslots as (Hsize & Htake & Hstale).
    rewrite Hsize, Nat2Z.id, Htake.
    replace ((0 <=? Z.of_nat (length es)) && (Z.of_nat (length es) <=? Z.of_nat (Z.to_nat HISTORY_MAXITEMS)))
      with true by (symmetry; apply andb_true_iff; split; apply Z.leb_le; lia).
    apply mapM_Some. clear Htake Hnd Hlen Hcap Hstale.
    induction Hlive as [|[l s] es' Hl _ IH]; simpl; constructor; done.
  - subst es. reflexivity.
Qed.


Lemma add_to_history_live (line : string) (st : state) (es : list (nat * string)) slots :
  represents HISTORY_MAXITEMS st es ->
  history (hist st) = Some slots ->
  (head (allocs (mem st)) <> Some false) ->
  exists st',
    add_to_history HISTORY_MAXITEMS line st = Ret 1 st'
    /\ represents HISTORY_MAXITEMS st' (push HISTORY_MAXITEMS es (next_loc (mem st), line))
    /\ allocs (mem st') = tail (allocs (mem st))
    /\ ctx st' = ctx st /\ io st' = io st
    /\ (forall l s, l ∉ es.*1 -> heap (mem st) !! l = Some s -> heap (mem st') !! l = Some s).
Proof.
  intros (Hb & Hlen & Hcap & Hnd & Hlive & Hslots) Hh Hal.
  destruct st as [[hp nl al] [h len] c w]; simpl in *. subst h.
  destruct Hslots as (Hsize & Htake & Hstale).
  pose proof (heap_bounded_fresh _ _ _ Hb) as Hfresh.
  unfold add_to_history, bind, gets, strdup_text, bind, alloc_ok; simpl.
  assert (exists al', (match al with [] => Ret true (mk_state (mk_memory hp nl al) (mk_store (Some slots) len) c w) | b :: rest => Ret b (with_mem (fun _ => mk_memory hp nl rest) (mk_state (mk_memory hp nl al) (mk_store (Some slots) len) c w)) end) = Ret true (mk_state (mk_memory hp nl al') (mk_store (Some slots) len) c w) /\ al' = tail al) as (al' & -> & Hal').
  { destruct al as [|[] rest]; simpl in *; eauto. done. }
  unfold new_buffer, ret; simpl. unfold push. rewrite <- Hlen.
  destruct (len =? HISTORY_MAXITEMS) eqn:Hfull.
  - apply Z.eqb_eq in Hfull.
    assert (Hn : length es = length slots) by lia.
    rewrite Hn, firstn_all in Htake.
    destruct es as [|[l0 s0] es']; [simpl in *; lia|].
    rewrite fmap_cons in Htake. cbn [fst] in Htake.
    remember ((fun e : nat * string => Some e.1) <$> es') as rest eqn:Hrest.
    assert (Hrl : length rest = length es') by (subst rest; apply length_fmap).
    subst slots.
    inversion Hlive as [|? ? Hl0 Hlive']; subst x l. cbn [fst snd] in Hl0.
    rewrite fmap_cons in Hnd. apply NoDup_cons in Hnd as [Hl0' Hnd']. cbn [fst] in Hl0'.
    assert (Hlen1 : len - 1 = Z.of_nat (length rest)) by (rewrite Hlen; simpl; lia).
    unfold history_get, free, set_history_len, modify, history_set, with_hist, with_mem; simpl.
    rewrite lookup_insert_ne by congruence. rewrite Hl0. simpl.
    assert (Hml : length (memmove_down (Some l0 :: rest)) = S (length rest)).
    { unfold memmove_down. rewrite length_app, !length_drop. simpl. lia. }
    rewrite Hml, Hlen1, Nat2Z.id.
    replace ((0 <=? Z.of_nat (length rest)) && (Z.of_nat (length rest) <? Z.of_nat (S (length rest)))) with true
      by (symmetry; apply andb_true_iff; split; [apply Z.leb_le | apply Z.ltb_lt]; lia).
    rewrite memmove_down_insert.
    eexists. split; [reflexivity|]. split.
    2:{ simpl. split_and!; [by subst al' | done | done |].
        intros l s Hl Hs. rewrite lookup_delete_ne, lookup_insert_ne; [done|congruence|].
        intros <-. apply Hl. simpl. left. }
    unfold represents; simpl. rewrite drop_0.
    rewrite length_app, Hlen in *. simpl in *.
    assert (Hnl : nl ∉ es'.*1) by (by apply (live_entries_fresh hp)).
    split_and!.
    + apply (heap_bounded_delete _ _ al'), (heap_bounded_insert _ _ al), Hb.
    + lia.
    + lia.
    + rewrite fmap_app. apply NoDup_app. split_and!; [done| |apply NoDup_singleton].
      simpl. intros l Hl Hl'. apply list_elem_of_singleton in Hl'. by subst l.
    + apply Forall_app. split.
      * apply live_entries_delete; [done|]. by apply live_entries_insert.
      * constructor; [|constructor]. simpl.
        rewrite lookup_delete_ne by congruence. apply lookup_insert_eq.
    + rewrite length_app. simpl. lia.
    + rewrite fmap_app, <- Hrest. simpl.
      apply take_ge. rewrite !length_app. simpl. lia.
    + rewrite drop_ge by (rewrite !length_app; simpl; lia). constructor.
  - apply Z.eqb_neq in Hfull. simpl.
    assert (Hlt : (length es < length slots)%nat) by lia.
    unfold history_set, set_history_len, modify, with_hist, with_mem; simpl.
    replace ((0 <=? len) && (len <? Z.of_nat (length slots))) with true
      by (symmetry; apply andb_true_iff; split; [apply Z.leb_le | apply Z.ltb_lt]; lia).
    eexists. split; [reflexivity|]. split.
    2:{ simpl. split_and!; [by subst al' | done | done |].
        intros l s Hl Hs. rewrite lookup_insert_ne; [done|congruence]. }
    unfold represents; simpl.
    rewrite Hlen, Nat2Z.id, length_app, length_insert. simpl.
    assert (Hnl : nl ∉ es.*1) by (by apply (live_entries_fresh hp)).
    split_and!.
    + apply (heap_bounded_insert _ _ al), Hb.
    + lia.
    + lia.
    + rewrite fmap_app. apply NoDup_app. split_and!; [done| |apply NoDup_singleton].
      simpl. intros l Hl Hl'. apply list_elem_of_singleton in Hl'. by subst l.
    + apply Forall_app. split.
      * by apply live_entries_insert.
      * constructor; [|constructor]. simpl. apply lookup_insert_eq.
    + done.
    + rewrite fmap_app. simpl.
      replace (length es + 1)%nat with (S (length es)) by lia.
      rewrite (take_S_r _ _ (Some nl)) by (by apply list_lookup_insert_eq).
      rewrite take_insert_ge by lia. by rewrite Htake.
    + replace (length es + 1)%nat with (S (length es)) by lia.
      rewrite drop_insert_lt by lia.
      replace (S (length es)) with (length es + 1)%nat by lia.
      rewrite <- drop_drop. apply Forall_drop.
      eapply Forall_impl; [exact Hstale|]. intros p. apply stale_after_alloc.
Qed.


(** The first call allocates the array; from there on it goes as with an
    allocated array of [NULL] slots. *)
Lemma add_to_history_first_call (line : string) (st : state) :
  history (hist st) = None ->
  head (allocs (mem st)) <> Some false ->
  add_to_history HISTORY_MAXITEMS line st =
    add_to_history HISTORY_MAXITEMS line
      (mk_state
         (mk_memory (heap (mem st)) (next_loc (mem st)) (tail (allocs (mem st))))
         (mk_store (Some (replicate (Z.to_nat HISTORY_MAXITEMS) None)) (history_len (hist st)))
         (ctx st) (io st)).
Proof.
  intros Hh Hal. destruct st as [[hp nl al] [h len] c w]; simpl in *. subst h.
  unfold add_to_history, bind, gets, alloc_ok; simpl.
  destruct al as [|[] rest]; simpl in *; done.
Qed.

(** [calloc] fails: the message, and 0. *)
Lemma add_to_history_calloc_fails (line : string) (st : state) (rest : list bool) :
  history (hist st) = None ->
  allocs (mem st) = false :: rest ->
  add_to_history HISTORY_MAXITEMS line st =
    Ret 0 (report (Message ("error: memory alloc error" +:+ LF))
             (mk_state (mk_memory (heap (mem st)) (next_loc (mem st)) rest)
                (hist st) (ctx st) (io st))).
Proof.
  intros Hh Hal. destruct st as [[hp nl al] [h len] c w]; simpl in *. subst h al.
  reflexivity.
Qed.

(** [strdup] fails: 0, and nothing but the oracle has changed. *)
Lemma add_to_history_strdup_fails (line : string) (st : state)
    (slots : list (option nat)) (rest : list bool) :
  history (hist st) = Some slots ->
  allocs (mem st) = false :: rest ->
  add_to_history HISTORY_MAXITEMS line st =
    Ret 0 (mk_state (mk_memory (heap (mem st)) (next_loc (mem st)) rest)
             (hist st) (ctx st) (io st)).
Proof.
  intros Hh Hal. destruct st as [[hp nl al] [h len] c w]; simpl in *. subst h al.
  reflexivity.
Qed.

Lemma represents_change_oracle (st : state) (es : list (nat * string)) (al : list bool)
    (c : replay_context) (w : world) :
  represents HISTORY_MAXITEMS st es ->
  represents HISTORY_MAXITEMS
    (mk_state (mk_memory (heap (mem st)) (next_loc (mem st)) al) (hist st) c w) es.
Proof. intros H. exact H. Qed.

Lemma represents_allocate_array (st : state) (al : list bool) :
  represents HISTORY_MAXITEMS st [] ->
  represents HISTORY_MAXITEMS
    (mk_state (mk_memory (heap (mem st)) (next_loc (mem st)) al)
       (mk_store (Some (replicate (Z.to_nat HISTORY_MAXITEMS) None)) (history_len (hist st)))
       (ctx st) (io st)) [].
Proof.
  intros (Hb & Hlen & Hcap & Hnd & Hlive & Hslots).
  unfold represents; simpl. split_and!; try done.
  - apply length_replicate.
  - rewrite Forall_forall. intros p Hin.
    by apply elem_of_replicate in Hin as [-> _].
Qed.

Lemma represents_no_array (st : state) (es : list (nat * string)) :
  represents HISTORY_MAXITEMS st es -> history (hist st) = None -> es = [].
Proof. intros (_ & _ & _ & _ & _ & Hslots) Hh. by rewrite Hh in Hslots. Qed.

(** One call of [add_to_history] on a store that holds [es]: it returns;
    with 1 when no allocation failed, the store then holding [es] pushed by
    the new entry; with 0 when one failed, the store then holding [es]
    still.  [used] are the results the allocator gave during the call.
    Buffers that are not entries of the store are untouched. *)
Lemma add_to_history_step (line : string) (st : state) (es : list (nat * string)) :
  represents HISTORY_MAXITEMS st es ->
  exists (v : Z) (st' : state) (used : list bool),
    add_to_history HISTORY_MAXITEMS line st = Ret v st'
    /\ allocs (mem st) = used ++ allocs (mem st')
    /\ ((v = 1 /\ Forall (fun b => b = true) used
         /\ represents HISTORY_MAXITEMS st'
              (push HISTORY_MAXITEMS es (next_loc (mem st), line)))
        \/ (v = 0 /\ false ∈ used /\ represents HISTORY_MAXITEMS st' es))
    /\ ctx st' = ctx st
    /\ stdin (io st') = stdin (io st)
    /\ stdout (io st') = stdout (io st)
    /\ spawned (io st') = spawned (io st)
    /\ (forall l s, l ∉ es.*1 -> heap (mem st) !! l = Some s -> heap (mem st') !! l = Some s).
Proof.
  intros Hrep.
  destruct (history (hist st)) as [slots|] eqn:Hh.
  - destruct (allocs (mem st)) as [|b rest] eqn:Hal.
    + destruct (add_to_history_live line st es slots Hrep Hh) as (st' & Hrun & Hrep' & Hal' & Hc & Hio & Hframe).
      { by rewrite Hal. }
      exists 1, st', []. rewrite Hal' , Hal, Hio. split_and!; try done. left. split_and!; done.
    + destruct b.
      * destruct (add_to_history_live line st es slots Hrep Hh) as (st' & Hrun & Hrep' & Hal' & Hc & Hio & Hframe).
        { by rewrite Hal. }
        exists 1, st', [true]. rewrite Hal', Hal, Hio. split_and!; try done. left.
        split_and!; try done. by constructor.
      * rewrite (add_to_history_strdup_fails line st slots rest Hh Hal).
        eexists 0, _, [false]. split_and!; try done. right.
        split_and!; [done | by apply list_elem_of_singleton |].
        exact (represents_change_oracle st es rest _ _ Hrep).
  - pose proof (represents_no_array st es Hrep Hh) as ->.
    destruct (allocs (mem st)) as [|b rest] eqn:Hal.
    + rewrite add_to_history_first_call by (by rewrite ?Hal).
      rewrite Hal. simpl tail.
      edestruct (add_to_history_live line) as (st' & Hrun & Hrep' & Hal' & Hc & Hio & Hframe);
        [apply (represents_allocate_array st []), Hrep | reflexivity | done |].
      simpl in *. exists 1, st', []. rewrite Hal', Hio. split_and!; try done. left. split_and!; done.
    + destruct b.
      * rewrite add_to_history_first_call by (by rewrite ?Hal).
        rewrite Hal. simpl tail.
        destruct rest as [|[] rest'].
        -- edestruct (add_to_history_live line) as (st' & Hrun & Hrep' & Hal' & Hc & Hio & Hframe);
             [apply (represents_allocate_array st []), Hrep | reflexivity | done |].
           simpl in *. exists 1, st', [true]. rewrite Hal', Hio. split_and!; try done.
           left. split_and!; try done. by repeat constructor.
        -- edestruct (add_to_history_live line) as (st' & Hrun & Hrep' & Hal' & Hc & Hio & Hframe);
             [apply (represents_allocate_array st (true :: rest')), Hrep | reflexivity | done |].
           simpl in *. exists 1, st', [true; true]. rewrite Hal', Hio. split_and!; try done.
           left. split_and!; try done. by repeat constructor.
        -- erewrite add_to_history_strdup_fails; [|reflexivity|reflexivity].
           simpl. eexists 0, _, [true; false]. split_and!; try done.
           right. split_and!; [done | | apply (represents_allocate_array st rest'), Hrep].
           right. left.
      * rewrite (add_to_history_calloc_fails line st rest Hh Hal).
        eexists 0, _, [false]. split_and!; try done. right.
        split_and!; [done | by apply list_elem_of_singleton |].
        exact (represents_change_oracle st [] rest _ _ Hrep).
Qed.


Lemma push_fmap {A B} (f : A -> B) (es : list A) (e : A) :
  f <$> push HISTORY_MAXITEMS es e = push HISTORY_MAXITEMS (f <$> es) (f e).
Proof.
  unfold push. rewrite length_fmap, fmap_app.
  destruct (Z.of_nat (length es) =? HISTORY_MAXITEMS); by rewrite ?fmap_drop.
Qed.

Lemma push_keep_last {A} (es : list A) (e : A) :
  Z.of_nat (length es) <= HISTORY_MAXITEMS ->
  push HISTORY_MAXITEMS es e = keep_last (Z.to_nat HISTORY_MAXITEMS) (es ++ [e]).
Proof.
  intros Hcap. unfold push, keep_last. rewrite length_app. simpl.
  destruct (Z.of_nat (length es) =? HISTORY_MAXITEMS) eqn:E.
  - apply Z.eqb_eq in E.
    replace (length es + 1 - Z.to_nat HISTORY_MAXITEMS)%nat with 1%nat by lia.
    rewrite drop_app_le; [done|]. lia.
  - apply Z.eqb_neq in E.
    replace (length es + 1 - Z.to_nat HISTORY_MAXITEMS)%nat with 0%nat by lia.
    done.
Qed.

Lemma keep_last_app {A} (n : nat) (l l' : list A) :
  keep_last n (keep_last n l ++ l') = keep_last n (l ++ l').
Proof.
  unfold keep_last. rewrite !length_app, length_drop.
  destruct (decide (length l <= n)%nat) as [Hle|Hgt].
  - replace (length l - n)%nat with 0%nat by lia. simpl.
    by replace (length l - 0 + length l' - n)%nat with (length l + length l' - n)%nat by lia.
  - replace (length l - (length l - n) + length l' - n)%nat with (length l') by lia.
    replace (length l + length l' - n)%nat with ((length l - n) + length l')%nat by lia.
    rewrite <- drop_drop. f_equal. rewrite drop_app_le; [done|lia].
Qed.

Lemma keep_last_length {A} (n : nat) (l : list A) :
  length (keep_last n l) = Nat.min n (length l).
Proof. unfold keep_last. rewrite length_drop. lia. Qed.

Lemma keep_last_short {A} (n : nat) (l : list A) :
  (length l <= n)%nat -> keep_last n l = l.
Proof. intros H. unfold keep_last. by replace (length l - n)%nat with 0%nat by lia. Qed.

Lemma no_alloc_failure_split (st st' : state) (used : list bool) :
  allocs (mem st) = used ++ allocs (mem st') ->
  no_alloc_failure st ->
  Forall (fun b => b = true) used /\ no_alloc_failure st'.
Proof.
  unfold no_alloc_failure. intros ->. apply Forall_app.
Qed.

Lemma represents_bounds (st : state) (es : list (nat * string)) :
  represents HISTORY_MAXITEMS st es ->
  0 <= history_len (hist st) <= HISTORY_MAXITEMS
  /\ history_len (hist st) = Z.of_nat (length es.*2).
Proof.
  intros (_ & Hlen & Hcap & _). rewrite length_fmap. lia.
Qed.

(** A sequence of calls of [add_to_history], from a store holding [es]. *)
Lemma record_all_spec (lines : list string) (st : state) (es : list (nat * string)) :
  represents HISTORY_MAXITEMS st es ->
  exists (st' : state) (es' : list (nat * string)),
    record_all HISTORY_MAXITEMS lines st = Ret tt st'
    /\ represents HISTORY_MAXITEMS st' es'
    /\ (no_alloc_failure st ->
          no_alloc_failure st'
          /\ es'.*2 = keep_last (Z.to_nat HISTORY_MAXITEMS) (es.*2 ++ lines)).
Proof.
  revert st es. induction lines as [|line lines IH]; intros st es Hrep.
  - exists st, es. split_and!; [done..|]. intros Hna. split; [done|].
    rewrite app_nil_r, keep_last_short; [done|].
    destruct Hrep as (_ & _ & Hcap & _). rewrite length_fmap. lia.
  - destruct (add_to_history_step line st es Hrep)
      as (v & st1 & used & Hrun & Hused & Hcase & _).
    assert (exists es1, represents HISTORY_MAXITEMS st1 es1
              /\ (no_alloc_failure st ->
                    es1 = push HISTORY_MAXITEMS es (next_loc (mem st), line)))
      as (es1 & Hrep1 & Hes1).
    { destruct Hcase as [(_ & _ & Hrep1) | (_ & Hfalse & Hrep1)].
      - eauto.
      - exists es. split; [done|]. intros Hna.
        destruct (no_alloc_failure_split _ _ _ Hused Hna) as [Hall _].
        rewrite Forall_forall in Hall. by specialize (Hall _ Hfalse). }
    destruct (IH st1 es1 Hrep1) as (st' & es' & Hrun' & Hrep' & Hkeep).
    exists st', es'. split_and!; [|done|].
    + simpl. unfold bind. by rewrite Hrun.
    + intros Hna.
      destruct (no_alloc_failure_split _ _ _ Hused Hna) as [_ Hna1].
      destruct (Hkeep Hna1) as [Hna' ->]. split; [done|].
      rewrite (Hes1 Hna), push_fmap. simpl.
      rewrite push_keep_last, keep_last_app, <- app_assoc; [done|].
      destruct Hrep as (_ & _ & Hcap & _). by rewrite length_fmap.
Qed.

(** C3.  The invariant of the history store ([store_ok]: the array has
    [HISTORY_MAXITEMS] slots, the entries are the first [history_len] of
    them, each a live buffer of its own) holds across every sequence of
    calls of [add_to_history], whatever the allocator answers: every call
    returns, [history_len] never exceeds [HISTORY_MAXITEMS], and entries are
    read at the indices [0 .. history_len - 1].  When no allocation fails the
    store holds, oldest first, the last [HISTORY_MAXITEMS] of the texts it
    held followed by the recorded lines.  In particular recording one line
    at full capacity drops the entry of index 0, moves every other entry
    down by one index and puts the line last; and [HISTORY_MAXITEMS + 1]
    lines recorded into an empty store leave all but the first, in order. *)
Theorem history_store_invariant (lines : list string) (st : state) :
  store_ok HISTORY_MAXITEMS st ->
  exists (st' : state) (before after : list string),
    record_all HISTORY_MAXITEMS lines st = Ret tt st'
    /\ store_ok HISTORY_MAXITEMS st'
    /\ history_entries st = Some before
    /\ history_entries st' = Some after
    /\ history_len (hist st') = Z.of_nat (length after)
    /\ 0 <= history_len (hist st') <= HISTORY_MAXITEMS
    /\ (no_alloc_failure st ->
          after = keep_last (Z.to_nat HISTORY_MAXITEMS) (before ++ lines)
          /\ (forall line, lines = [line] ->
                Z.of_nat (length before) = HISTORY_MAXITEMS ->
                after = drop 1 before ++ [line]
                /\ (forall i : nat, (i < length before - 1)%nat ->
                      after !! i = before !! S i)
                /\ after !! (length before - 1)%nat = Some line)
          /\ (before = [] ->
                Z.of_nat (length lines) = HISTORY_MAXITEMS + 1 ->
                after = drop 1 lines)).
Proof.
  intros [es Hrep].
  destruct (record_all_spec lines st es Hrep) as (st' & es' & Hrun & Hrep' & Hkeep).
  exists st', es.*2, es'.*2.
  destruct (represents_bounds st' es' Hrep') as [Hbounds Hlen'].
  split_and!; try done; try lia.
  - by exists es'.
  - by apply represents_entries.
  - by apply represents_entries.
  - intros Hna. destruct (Hkeep Hna) as [_ Hafter]. split_and!; [done| |].
    + intros line -> Hfull. rewrite Hafter.
      assert (Hdrop : keep_last (Z.to_nat HISTORY_MAXITEMS) (es.*2 ++ [line])
                      = drop 1 es.*2 ++ [line]).
      { rewrite <- push_keep_last by lia. unfold push. by rewrite Hfull, Z.eqb_refl. }
      rewrite Hdrop. split_and!; [done| |].
      * intros i Hi. rewrite lookup_app_l by (rewrite length_drop; lia).
        by rewrite lookup_drop.
      * rewrite lookup_app_r by (rewrite length_drop; lia).
        rewrite length_drop. by rewrite Nat.sub_diag.
    + intros Hnil Hlines. rewrite Hafter, Hnil. simpl.
      unfold keep_last. f_equal. lia.
Qed.


(** Releasing the buffer of a slot that points to a live buffer. *)
Lemma free_slot_run (st : state) (slots : list (option nat)) (i l : nat) (s : string) :
  history (hist st) = Some slots ->
  slots !! i = Some (Some l) ->
  heap (mem st) !! l = Some s ->
  (p <- history_get (Z.of_nat i) ;; free p) st =
    Ret tt (with_mem (fun m => mk_memory (delete l (heap m)) (next_loc m) (allocs m)) st).
Proof.
  intros Hh Hslot Hl.
  assert (Hbound : (i < length slots)%nat) by (by apply lookup_lt_Some in Hslot).
  unfold bind, history_get. rewrite Hh.
  replace ((0 <=? Z.of_nat i) && (Z.of_nat i <? Z.of_nat (length slots)))
    with true by (symmetry; apply andb_true_iff; split; [apply Z.leb_le | apply Z.ltb_lt]; lia).
  rewrite Nat2Z.id, Hslot. unfold free. by rewrite Hl.
Qed.

(** The loop of [clear_history] from index [length freed] on: the buffers
    of the entries [todo] are released, and nothing else changes. *)
Lemma clear_history_loop (slots : list (option nat)) (todo freed : list (nat * string))
    (st : state) :
  history (hist st) = Some slots ->
  take (length (freed ++ todo)) slots = (fun e => Some e.1) <$> (freed ++ todo) ->
  NoDup todo.*1 ->
  Forall (fun e => heap (mem st) !! e.1 = Some e.2) todo ->
  exists st',
    for_each (seqZ (Z.of_nat (length freed)) (Z.of_nat (length todo)))
      (fun i => p <- history_get i ;; free p) st = Ret tt st'
    /\ hist st' = hist st /\ ctx st' = ctx st /\ io st' = io st
    /\ next_loc (mem st') = next_loc (mem st)
    /\ allocs (mem st') = allocs (mem st)
    /\ (forall l, heap (mem st') !! l
                  = if decide (l ∈ todo.*1) then None else heap (mem st) !! l).
Proof.
  revert freed st. induction todo as [|[l0 s0] todo IH]; intros freed st Hh Htake Hnd Hlive.
  - exists st. simpl. split_and!; try done.
    all: intros l; destruct (decide (l ∈ [])) as [Hin|]; [by apply elem_of_nil in Hin|done].
  - rewrite seqZ_cons by (simpl; lia).
    inversion Hlive as [|? ? Hl0 Hlive']; subst. simpl in Hl0.
    rewrite fmap_cons in Hnd. apply NoDup_cons in Hnd as [Hl0' Hnd']. simpl in Hl0'.
    assert (Hslot : slots !! length freed = Some (Some l0)).
    { rewrite <- (lookup_take_lt slots (length (freed ++ (l0, s0) :: todo)))
        by (rewrite length_app; simpl; lia).
      rewrite Htake, list_lookup_fmap, lookup_app_r, Nat.sub_diag by lia. done. }
    cbn [for_each]. unfold bind at 1.
    rewrite (free_slot_run st slots (length freed) l0 s0 Hh Hslot Hl0).
    destruct (IH (freed ++ [(l0, s0)])
                (with_mem (fun m => mk_memory (delete l0 (heap m)) (next_loc m) (allocs m)) st))
      as (st' & Hrun & Hh' & Hc' & Hio' & Hnl' & Hal' & Hheap');
      [exact Hh | by rewrite <- app_assoc | exact Hnd' | | ].
    { simpl. by apply live_entries_delete. }
    exists st'. simpl in Hh', Hc', Hio', Hnl', Hal', Hheap'.
    replace (Z.succ (Z.of_nat (length freed))) with (Z.of_nat (length (freed ++ [(l0, s0)])))
      by (rewrite length_app; simpl; lia).
    replace (Z.pred (Z.of_nat (length ((l0, s0) :: todo)))) with (Z.of_nat (length todo))
      by (simpl; lia).
    split_and!; try done.
    intros l. rewrite Hheap'. cbn [mem heap with_mem]. rewrite fmap_cons. cbn [fst].
    destruct (decide (l ∈ l0 :: todo.*1)) as [Hin|Hnin];
      destruct (decide (l ∈ todo.*1)) as [Hin'|Hnin']; try done.
    + apply elem_of_cons in Hin as [->|?]; [|done]. apply lookup_delete_eq.
    + exfalso. apply Hnin. by right.
    + apply lookup_delete_ne. intros <-. apply Hnin. left.
Qed.


(** [clear_history] on a store that holds [es]: the buffers of the entries
    are released and the store is empty; other buffers are untouched. *)
Lemma clear_history_spec (st : state) (es : list (nat * string)) :
  represents HISTORY_MAXITEMS st es ->
  exists st',
    clear_history st = Ret 0 st'
    /\ represents HISTORY_MAXITEMS st' []
    /\ ctx st' = ctx st /\ io st' = io st
    /\ allocs (mem st') = allocs (mem st)
    /\ next_loc (mem st') = next_loc (mem st)
    /\ (forall l, heap (mem st') !! l
                  = if decide (l ∈ es.*1) then None else heap (mem st) !! l).
Proof.
  intros (Hb & Hlen & Hcap & Hnd & Hlive & Hslots).
  unfold clear_history, bind, gets. cbv beta. rewrite Hlen.
  destruct (history (hist st)) as [slots|] eqn:Hh.
  - destruct Hslots as (Hsize & Htake & Hstale).
    destruct (clear_history_loop slots es [] st Hh Htake Hnd Hlive)
      as (st' & Hrun & Hh' & Hc' & Hio' & Hnl' & Hal' & Hheap').
    change (Z.of_nat (length [])) with 0 in Hrun. unfold bind in Hrun. rewrite Hrun.
    eexists. split; [reflexivity|]. simpl.
    split_and!; try done.
    unfold represents; simpl. rewrite Hh', Hh. split_and!; try done.
    + intros l Hl. rewrite Hheap' in Hl. rewrite Hnl'.
      destruct (decide (l ∈ es.*1)); [by destruct Hl|]. by apply Hb.
    + lia.
    + constructor.
    + rewrite <- (take_drop (length es) slots), Htake. apply Forall_app. split.
      * apply Forall_fmap, Forall_forall. intros [l s] Hin. simpl.
        rewrite Hheap', Hnl'. split.
        -- rewrite decide_True; [done|]. apply list_elem_of_fmap. by exists (l, s).
        -- apply Hb. rewrite Forall_forall in Hlive. specialize (Hlive _ Hin).
           simpl in Hlive. by rewrite Hlive.
      * eapply Forall_impl; [exact Hstale|]. intros [l|]; [|done]. simpl.
        intros [Hl Hlt]. rewrite Hheap', Hnl', Hl. split; [|done].
        by destruct (decide (l ∈ es.*1)).
  - subst es. simpl. eexists. split; [reflexivity|]. simpl.
    split_and!; try done.
    unfold represents; simpl. rewrite Hh. split_and!; try done. all: constructor.
Qed.

Lemma elem_of_push {A} (es : list A) (e x : A) :
  x ∈ push HISTORY_MAXITEMS es e -> x ∈ es \/ x = e.
Proof.
  unfold push. intros H. apply elem_of_app in H as [H|H].
  - left. destruct (Z.of_nat (length es) =? HISTORY_MAXITEMS); [|done].
    by apply (subseteq_drop 1 es).
  - right. by apply list_elem_of_singleton in H.
Qed.

(** A live buffer that is not an entry of the store survives whatever is
    done to the store, and the store operations always return. *)
Lemma store_ops_keep_foreign_buffer (ops : list store_op) (st : state)
    (es : list (nat * string)) (line : nat) (text : string) :
  represents HISTORY_MAXITEMS st es ->
  line ∉ es.*1 ->
  heap (mem st) !! line = Some text ->
  exists st',
    run_store_ops HISTORY_MAXITEMS ops st = Ret tt st'
    /\ store_ok HISTORY_MAXITEMS st'
    /\ heap (mem st') !! line = Some text.
Proof.
  revert st es. induction ops as [|op ops IH]; intros st es Hrep Hline Hlive.
  - exists st. split_and!; [done| by exists es | done].
  - assert (exists v st1 es1, run_store_op HISTORY_MAXITEMS op st = Ret v st1
              /\ represents HISTORY_MAXITEMS st1 es1
              /\ (line ∉ es1.*1)
              /\ heap (mem st1) !! line = Some text)
      as (v & st1 & es1 & Hrun & Hrep1 & Hline1 & Hlive1).
    { destruct op as [input|]; simpl.
      - destruct (add_to_history_step input st es Hrep)
          as (v & st1 & used & Hrun & _ & Hcase & _ & _ & _ & _ & Hframe).
        exists v, st1.
        destruct Hcase as [(_ & _ & Hrep1) | (_ & _ & Hrep1)].
        + eexists. split_and!; [done | exact Hrep1 | | by apply Hframe].
          rewrite push_fmap. intros Hin. apply elem_of_push in Hin as [Hin|Hin]; [done|].
          simpl in Hin. destruct Hrep as (Hb & _).
          specialize (Hb line). rewrite Hlive in Hb. specialize (Hb ltac:(eauto)). lia.
        + exists es. split_and!; [done | exact Hrep1 | done | by apply Hframe].
      - destruct (clear_history_spec st es Hrep)
          as (st1 & Hrun & Hrep1 & _ & _ & _ & _ & Hheap).
        exists 0, st1, []. split_and!; [done | done | by intros ?%elem_of_nil |].
        rewrite Hheap. by rewrite decide_False. }
    destruct (IH st1 es1 Hrep1 Hline1 Hlive1) as (st' & Hrun' & Hok & Hlive').
    exists st'. split_and!; [|done|done].
    simpl. unfold bind. by rewrite Hrun.
Qed.


(** *** Replay *)

Variable parse : string -> commands.
Variable exec : commands -> M Z.

(** The replay path at a valid index [N]. *)
Lemma replay_valid_index
    (cmds : commands) (cmd : command) (N : Z) (texts : list string) (text : string)
    (st : state) :
  store_ok HISTORY_MAXITEMS st ->
  history_entries st = Some texts ->
  0 <= N ->
  texts !! Z.to_nat N = Some text ->
  head (allocs (mem st)) <> Some false ->
  let line := next_loc (mem st) in
  let st1 :=
    mk_state
      (mk_memory (<[line := text]> (heap (mem st))) (S line) (tail (allocs (mem st))))
      (hist st)
      (mk_replay_context (Some cmd) (Some cmds) (Some line))
      (io st) in
  replay parse exec cmds cmd N st =
    (_ <- exec (parse text) ;;
     free (Some line) ;;; set_replay_context None None None ;;; ret 0) st1
  /\ heap (mem st) !! line = None
  /\ (forall slots, history (hist st) = Some slots ->
        Some line ∉ take (Z.to_nat (history_len (hist st))) slots)
  /\ load (Some line) st1 = Ret text st1
  /\ history_entries st1 = Some texts
  /\ (forall ops : list store_op,
        exists st2,
          run_store_ops HISTORY_MAXITEMS ops st1 = Ret tt st2
          /\ load (Some line) st2 = Ret text st2).
Proof.
  intros [es Hrep] Hentries HN Htext Hal line st1.
  rewrite (represents_entries st es Hrep) in Hentries. injection Hentries as <-.
  rewrite list_lookup_fmap in Htext.
  destruct (es !! Z.to_nat N) as [[l s]|] eqn:Hes; [|done].
  simpl in Htext. injection Htext as ->.
  pose proof Hrep as (Hb & Hlen & Hcap & Hnd & Hlive & Hslots).
  assert (Hfresh : heap (mem st) !! line = None).
  { destruct (mem st) as [hp nl al] eqn:Hm. by apply (heap_bounded_fresh hp nl al). }
  assert (Hnot : line ∉ es.*1) by (by apply (live_entries_fresh (heap (mem st)))).
  assert (Hl : heap (mem st) !! l = Some text).
  { rewrite Forall_forall in Hlive. apply (Hlive (l, text)).
    by apply list_elem_of_lookup_2 in Hes. }
  assert (Hrep1 : represents HISTORY_MAXITEMS st1 es).
  { unfold represents, st1; simpl. split_and!; try done.
    - destruct (mem st) as [hp nl al] eqn:Hm. by apply (heap_bounded_insert hp nl al).
    - by apply live_entries_insert.
    - destruct (history (hist st)) as [slots|]; [|done].
      destruct Hslots as (Hsize & Htake & Hstale). split_and!; try done.
      eapply Forall_impl; [exact Hstale|]. intros p.
      destruct (mem st) as [hp nl al] eqn:Hm. apply stale_after_alloc. }
  assert (Hload1 : load (Some line) st1 = Ret text st1).
  { unfold load, st1; simpl. by rewrite lookup_insert_eq. }
  split_and!; try done.
  - destruct (history (hist st)) as [slots|] eqn:Hh; [|by subst es].
    destruct Hslots as (Hsize & Htake & Hstale).
    assert (Hslot : slots !! Z.to_nat N = Some (Some l)).
    { apply lookup_lt_Some in Hes as Hlt.
      rewrite <- (lookup_take_lt slots (length es)) by done.
      by rewrite Htake, list_lookup_fmap, Hes. }
    apply lookup_lt_Some in Hslot as Hbound.
    unfold replay. unfold bind at 1. unfold history_get. rewrite Hh.
    replace ((0 <=? N) && (N <? Z.of_nat (length slots)))
      with true by (symmetry; apply andb_true_iff; split; [apply Z.leb_le | apply Z.ltb_lt]; lia).
    rewrite Hslot. unfold bind at 1. unfold strdup, strdup_text.
    unfold bind at 1. unfold load at 1. rewrite Hl.
    unfold bind at 1. unfold alloc_ok.
    assert (Hstep : (match allocs (mem st) with
                     | [] => Ret true st
                     | b :: rest =>
                         Ret b (with_mem (fun _ =>
                           mk_memory (heap (mem st)) (next_loc (mem st)) rest) st)
                     end)
                    = Ret true (mk_state
                        (mk_memory (heap (mem st)) (next_loc (mem st)) (tail (allocs (mem st))))
                        (hist st) (ctx st) (io st))).
    { destruct st as [[hp nl al] h c w]; simpl in *.
      destruct al as [|[] rest]; simpl in *; done. }
    cbv zeta. rewrite Hstep. unfold bind at 1. unfold new_buffer, with_mem. simpl.
    unfold bind at 1. unfold load. simpl. rewrite lookup_insert_eq.
    reflexivity.
  - intros slots Hh Hin. rewrite Hh in Hslots. destruct Hslots as (_ & Htake & _).
    rewrite Hlen, Nat2Z.id, Htake in Hin.
    apply list_elem_of_fmap in Hin as ([l' s'] & Heq & Hin). simpl in Heq.
    injection Heq as ->. apply Hnot. apply list_elem_of_fmap. by exists (l', s').
  - by apply represents_entries.
  - intros ops.
    destruct (store_ops_keep_foreign_buffer ops st1 es line text Hrep1 Hnot)
      as (st2 & Hrun & _ & Hlive2).
    { unfold st1; simpl. apply lookup_insert_eq. }
    exists st2. split; [done|]. unfold load. by rewrite Hlive2.
Qed.

(** C5.  A [history <N>] with a valid index [N] ([history[N]] is the live
    entry [text]; [strdup] succeeds): [exec_commands] runs on the pipeline
    parsed from [text], the text the store holds at index [N] when
    [protosh_history] is called.  That text is read from a buffer [line]
    that did not exist before the call and that no entry of the store points
    to.  Whatever sequence of [add_to_history] (evictions included) and
    [clear_history] the replayed command performs on the store, these calls
    return and [line] still holds [text]. *)
Theorem replay_runs_a_private_copy
    (cmds : commands) (cmd : command) (arg : string) (loffset : Z)
    (texts : list string) (text : string) (st : state) :
  1 < argc cmd ->
  argv cmd !! 1%nat = Some arg ->
  arg <> "-c" ->
  strtol arg = Some loffset ->
  store_ok HISTORY_MAXITEMS st ->
  history_entries st = Some texts ->
  0 <= int_of_long loffset ->
  texts !! Z.to_nat (int_of_long loffset) = Some text ->
  head (allocs (mem st)) <> Some false ->
  let line := next_loc (mem st) in
  let st1 :=
    mk_state
      (mk_memory (<[line := text]> (heap (mem st))) (S line) (tail (allocs (mem st))))
      (hist st)
      (mk_replay_context (Some cmd) (Some cmds) (Some line))
      (io st) in
  protosh_history parse exec cmds cmd st =
    (_ <- exec (parse text) ;;
     free (Some line) ;;; set_replay_context None None None ;;; ret 0) st1
  /\ heap (mem st) !! line = None
  /\ (forall slots, history (hist st) = Some slots ->
        Some line ∉ take (Z.to_nat (history_len (hist st))) slots)
  /\ load (Some line) st1 = Ret text st1
  /\ history_entries st1 = Some texts
  /\ (forall ops : list store_op,
        exists st2,
          run_store_ops HISTORY_MAXITEMS ops st1 = Ret tt st2
          /\ load (Some line) st2 = Ret text st2).
Proof.
  intros Hargc Harg Hc Hnum Hok Hentries HN Htext Hal line st1.
  assert (Hrange : int_of_long loffset < history_len (hist st)).
  { destruct Hok as [es Hrep].
    rewrite (represents_entries st es Hrep) in Hentries. injection Hentries as <-.
    apply lookup_lt_Some in Htext. rewrite length_fmap in Htext.
    destruct Hrep as (_ & -> & _). lia. }
  rewrite (protosh_history_numeric parse exec cmds cmd arg st Hargc Harg Hc), Hnum.
  replace (history_len (hist st) <? int_of_long loffset) with false
    by (symmetry; apply Z.ltb_ge; lia).
  by apply replay_valid_index.
Qed.


(** *** Allocation failures *)

(** C8, as the code has it.  In [protosh_read_line] and in
    [protosh_split_line] an allocation failure is fatal: each returns or
    exits, and a failed [malloc] or [realloc] always ends in
    [exit(EXIT_FAILURE)].  In [add_to_history] it is not: the call always
    returns to its caller, with the error value 0 when [calloc] or [strdup]
    failed, the store then holding what it held, and with 1 otherwise. *)
Theorem allocation_failure_policy (line : nat) (input : string) (st : state) :
  fatal_on_alloc_failure st (protosh_read_line st)
  /\ (is_Some (heap (mem st) !! line) ->
        fatal_on_alloc_failure st (protosh_split_line line st))
  /\ (store_ok HISTORY_MAXITEMS st ->
        returns_zero_on_alloc_failure st (add_to_history HISTORY_MAXITEMS input st)
        /\ (forall st', add_to_history HISTORY_MAXITEMS input st = Ret 0 st' ->
              store_ok HISTORY_MAXITEMS st'
              /\ history_entries st' = history_entries st)).
Proof.
  split_and!.
  - apply protosh_read_line_fatal.
  - apply protosh_split_line_fatal.
  - intros [es Hrep].
    destruct (add_to_history_step input st es Hrep)
      as (v & st' & used & Hrun & Hused & Hcase & _).
    rewrite Hrun. split.
    + simpl. exists used. split; [done|].
      destruct Hcase as [(-> & Hall & _) | (-> & Hfalse & _)].
      * split; [|done]. intros Hin. rewrite Forall_forall in Hall.
        by specialize (Hall _ Hin).
      * split; [done|]. intros Hnin. done.
    + intros st'' Heq. injection Heq as -> <-.
      destruct Hcase as [(? & _) | (_ & _ & Hrep')]; [done|].
      split; [by exists es|].
      by rewrite (represents_entries _ _ Hrep), (represents_entries _ _ Hrep').
Qed.

(** *** The replay context *)

(** What the replay path leaves in the three pointers. *)
Lemma replay_context_cases
    (cmds : commands) (cmd : command) (offset : Z) (st st' : state) (v : Z) :
  replay parse exec cmds cmd offset st = Ret v st' ->
  (v = 1 /\ head (allocs (mem st)) = Some false /\ ctx st' = ctx st)
  \/ (v = 0
      /\ ctx st' = null_context
      /\ exists (text : string) (st1 st2 : state) (v1 : Z),
           exec (parse text) st1 = Ret v1 st2
           /\ ctx st1 = mk_replay_context (Some cmd) (Some cmds) (Some (next_loc (mem st)))
           /\ load (Some (next_loc (mem st))) st1 = Ret text st1).
Proof.
  unfold replay, bind, strdup, strdup_text, bind.
  destruct (history_get offset st) as [entry st0| | |] eqn:Hget; try done.
  assert (st0 = st) as ->.
  { unfold history_get in Hget. repeat case_match; congruence. }
  destruct (load entry st) as [text st0| | |] eqn:Hload; try done.
  assert (st0 = st) as ->.
  { unfold load in Hload. repeat case_match; congruence. }
  destruct (alloc_ok_cases st) as (b & st1 & used & Halloc & Hused & Htrue & Hfalse & Hheap).
  rewrite Halloc.
  assert (Hsame : ctx st1 = ctx st /\ next_loc (mem st1) = next_loc (mem st)).
  { unfold alloc_ok in Halloc. destruct (allocs (mem st)); injection Halloc as _ <-; done. }
  destruct Hsame as [Hctx Hnl].
  destruct b.
  - unfold new_buffer, ret. cbv zeta. unfold load. cbn [mem heap with_mem].
    rewrite lookup_insert_eq.
    unfold set_replay_context, modify.
    match goal with |- context [exec ?c ?s] =>
      destruct (exec c s) as [v1 st2| | |] eqn:Hexec; try done;
      set (st_in := s) in *
    end.
    unfold free. destruct (heap (mem st2) !! next_loc (mem st1)); [|done].
    intros Heq. injection Heq as <- <-. right. split_and!; [done | done |].
    exists text, st_in, st2, v1. rewrite <- Hnl. split_and!; [done | done |].
    unfold load, st_in. simpl. by rewrite lookup_insert_eq.
  - unfold ret. intros Heq. injection Heq as <- <-. left. split_and!; [done | | done].
    rewrite Hused, (Hfalse eq_refl). done.
Qed.

(** C4, as the code has it.  [protosh_history] saves nothing of
    [parent_cmd], [parent_cmds] and [temp_line].  When a [history <N>] that
    passed the range check returns, either [strdup] had failed, the value is
    1 and the three pointers are what they were; or [exec_commands] was
    called, with the three pointers set to the command, the pipeline and the
    line of this replay, and has returned, the value is 0 and the three
    pointers are [NULL], whatever they were when the replay was called. *)
Theorem replay_resets_context
    (cmds : commands) (cmd : command) (arg : string) (loffset : Z)
    (st st' : state) (v : Z) :
  1 < argc cmd ->
  argv cmd !! 1%nat = Some arg ->
  arg <> "-c" ->
  strtol arg = Some loffset ->
  int_of_long loffset <= history_len (hist st) ->
  protosh_history parse exec cmds cmd st = Ret v st' ->
  (v = 1 /\ head (allocs (mem st)) = Some false /\ ctx st' = ctx st)
  \/ (v = 0
      /\ ctx st' = null_context
      /\ exists (text : string) (st1 st2 : state) (v1 : Z),
           exec (parse text) st1 = Ret v1 st2
           /\ ctx st1 = mk_replay_context (Some cmd) (Some cmds) (Some (next_loc (mem st)))
           /\ load (Some (next_loc (mem st))) st1 = Ret text st1).
Proof.
  intros Hargc Harg Hc Hnum Hrange.
  rewrite (protosh_history_numeric parse exec cmds cmd arg st Hargc Harg Hc), Hnum.
  replace (history_len (hist st) <? int_of_long loffset) with false
    by (symmetry; apply Z.ltb_ge; lia).
  apply replay_context_cases.
Qed.


(** *** Listing and clearing *)

Lemma printed_nil (st : state) : printed [] st = st.
Proof.
  destruct st as [m h c [i o e d s y]]. unfold printed, with_io; simpl.
  by rewrite app_nil_r.
Qed.

Lemma printed_cons (line : string) (lines : list string) (st : state) :
  printed lines (printed [line] st) = printed (line :: lines) st.
Proof.
  unfold printed, with_io; simpl. by rewrite <- app_assoc.
Qed.

(** The loop of the listing from index [length shown] on. *)
Lemma history_list_loop (slots : list (option nat)) (todo shown : list (nat * string))
    (st : state) :
  history (hist st) = Some slots ->
  take (length (shown ++ todo)) slots = (fun e => Some e.1) <$> (shown ++ todo) ->
  Forall (fun e => heap (mem st) !! e.1 = Some e.2) todo ->
  for_each (seqZ (Z.of_nat (length shown)) (Z.of_nat (length todo)))
    (fun i =>
       p <- history_get i ;;
       text <- load p ;;
       print (pretty i +:+ " " +:+ text +:+ LF)) st
  = Ret tt (printed (listing (length shown) todo.*2) st).
Proof.
  revert shown st. induction todo as [|[l0 s0] todo IH]; intros shown st Hh Htake Hlive.
  - simpl. by rewrite printed_nil.
  - rewrite seqZ_cons by (simpl; lia).
    inversion Hlive as [|? ? Hl0 Hlive']; subst. simpl in Hl0.
    assert (Hslot : slots !! length shown = Some (Some l0)).
    { rewrite <- (lookup_take_lt slots (length (shown ++ (l0, s0) :: todo)))
        by (rewrite length_app; simpl; lia).
      rewrite Htake, list_lookup_fmap, lookup_app_r, Nat.sub_diag by lia. done. }
    apply lookup_lt_Some in Hslot as Hbound.
    cbn [for_each]. unfold bind at 1.
    assert (Hstep : (p <- history_get (Z.of_nat (length shown)) ;;
                     text <- load p ;;
                     print (pretty (Z.of_nat (length shown)) +:+ " " +:+ text +:+ LF)) st
                    = Ret tt (printed [history_line (Z.of_nat (length shown)) s0] st)).
    { unfold bind, history_get. rewrite Hh.
      replace ((0 <=? Z.of_nat (length shown)) && (Z.of_nat (length shown) <? Z.of_nat (length slots)))
        with true by (symmetry; apply andb_true_iff; split; [apply Z.leb_le | apply Z.ltb_lt]; lia).
      rewrite Nat2Z.id, Hslot. unfold load. rewrite Hl0. reflexivity. }
    rewrite Hstep.
    replace (Z.succ (Z.of_nat (length shown))) with (Z.of_nat (length (shown ++ [(l0, s0)])))
      by (rewrite length_app; simpl; lia).
    replace (Z.pred (Z.of_nat (length ((l0, s0) :: todo)))) with (Z.of_nat (length todo))
      by (simpl; lia).
    rewrite (IH (shown ++ [(l0, s0)])); [| exact Hh | by rewrite <- app_assoc | exact Hlive'].
    rewrite printed_cons. do 2 f_equal.
    rewrite fmap_cons. unfold listing. cbn [imap fst snd]. f_equal.
    + by rewrite Nat.add_0_r.
    + apply imap_ext. intros i t _. simpl. rewrite length_app. simpl. do 2 f_equal. lia.
Qed.

(** [history] without argument prints one line per entry, [<index> <text>],
    oldest first, and returns 1 with nothing else changed. *)
Theorem history_lists_the_entries (cmds : commands) (cmd : command) (st : state)
    (texts : list string) :
  store_ok HISTORY_MAXITEMS st ->
  history_entries st = Some texts ->
  argc cmd = 1 ->
  protosh_history parse exec cmds cmd st = Ret 1 (printed (listing 0 texts) st).
Proof.
  intros [es Hrep] Hentries Hargc.
  rewrite (represents_entries st es Hrep) in Hentries. injection Hentries as <-.
  destruct Hrep as (Hb & Hlen & Hcap & Hnd & Hlive & Hslots).
  unfold protosh_history. rewrite Hargc. simpl (1 =? 1).
  cbv iota. unfold bind at 1. unfold gets. rewrite Hlen.
  destruct (history (hist st)) as [slots|] eqn:Hh.
  - destruct Hslots as (Hsize & Htake & Hstale).
    unfold bind at 1.
    pose proof (history_list_loop slots es [] st Hh Htake Hlive) as Hrun.
    change (Z.of_nat (length [])) with 0 in Hrun. simpl length in Hrun.
    rewrite Hrun. reflexivity.
  - subst es. simpl. unfold bind, ret. simpl. by rewrite printed_nil.
Qed.

(** [history -c] and then [history], the handler being called with a
    pipeline and a command: the clearing returns 0 and leaves a store
    without entry, on which the listing prints nothing and returns 1. *)
Theorem history_clear_then_list_is_empty
    (cmds cmds' : commands) (cmd cmd' : command) (st : state) :
  store_ok HISTORY_MAXITEMS st ->
  1 < argc cmd ->
  argv cmd !! 1%nat = Some "-c" ->
  argc cmd' = 1 ->
  exists st',
    protosh_history parse exec cmds cmd st = Ret 0 st'
    /\ store_ok HISTORY_MAXITEMS st'
    /\ history_entries st' = Some []
    /\ history_len (hist st') = 0
    /\ protosh_history parse exec cmds' cmd' st' = Ret 1 st'.
Proof.
  intros [es Hrep] Hargc Harg Hargc'.
  destruct (clear_history_spec st es Hrep) as (st' & Hrun & Hrep' & _).
  exists st'.
  assert (Hok : store_ok HISTORY_MAXITEMS st') by (by exists []).
  pose proof (represents_entries st' [] Hrep') as Hentries. simpl in Hentries.
  split_and!; try done.
  - unfold protosh_history.
    destruct (argc cmd =? 1) eqn:E1; [apply Z.eqb_eq in E1; lia|].
    destruct (1 <? argc cmd) eqn:E2; [|apply Z.ltb_ge in E2; lia].
    rewrite Harg. cbn [String.eqb Ascii.eqb Bool.eqb]. cbv iota.
    unfold bind. by rewrite Hrun.
  - by destruct Hrep' as (_ & Hlen & _).
  - unfold protosh_history. rewrite Hargc'. cbn [Z.eqb Pos.eqb]. cbv iota.
    unfold bind, gets. destruct Hrep' as (_ & -> & _). reflexivity.
Qed.


(** C1 fails on the code.  After [clear_history], [protosh_history]
    returns 0: the value [protosh_exit] returns, and the value on which the
    [do ... while (status)] loop of [protosh_loop] ends.  So [history -c]
    requests the end of the interpreter as [exit] does.  (Through
    [protosh_execute] the handler is not reached with its arguments: the
    call of its entry of [builtin_func] is undefined.) *)
Theorem history_clear_returns_the_exit_value
    (cmds : commands) (cmd : command) (st : state) :
  store_ok HISTORY_MAXITEMS st ->
  1 < argc cmd ->
  argv cmd !! 1%nat = Some "-c" ->
  (exists st', protosh_history parse exec cmds cmd st = Ret 0 st'
     /\ history_len (hist st') = 0)
  /\ protosh_exit (argv cmd) st = Ret 0 st
  /\ (forall (fuel : nat) (s s' : state),
        protosh_loop_body s = Ret 0 s' -> protosh_loop (S fuel) s = Ret tt s')
  /\ (forall (args : list string) (s : state),
        protosh_execute ("history" :: args) s = Fault UndefinedCall s).
Proof.
  intros [es Hrep] Hargc Harg.
  destruct (clear_history_spec st es Hrep) as (st' & Hrun & Hrep' & _).
  split_and!.
  - exists st'. split; [|by destruct Hrep' as (_ & Hlen & _)].
    unfold protosh_history.
    destruct (argc cmd =? 1) eqn:E1; [apply Z.eqb_eq in E1; lia|].
    destruct (1 <? argc cmd) eqn:E2; [|apply Z.ltb_ge in E2; lia].
    rewrite Harg. cbn [String.eqb Ascii.eqb Bool.eqb]. cbv iota.
    unfold bind. by rewrite Hrun.
  - reflexivity.
  - intros fuel s s' Hbody. cbn [protosh_loop]. unfold bind. by rewrite Hbody.
  - reflexivity.
Qed.

(** *** One past the last entry *)

(** The range check lets [N = history_len] through, and [history[N]] is then
    no entry: the array is not allocated yet, or [N] is [HISTORY_MAXITEMS],
    one past the array, or the slot is [NULL] or points to a buffer that
    [clear_history] released.  In each case [strdup(history[N])] is where
    the embedding stops, with the kind of the undefined read. *)
Lemma replay_at_history_len
    (cmds : commands) (cmd : command) (arg : string) (loffset : Z) (st : state) :
  store_ok HISTORY_MAXITEMS st ->
  1 < argc cmd ->
  argv cmd !! 1%nat = Some arg ->
  arg <> "-c" ->
  strtol arg = Some loffset ->
  int_of_long loffset = history_len (hist st) ->
  protosh_history parse exec cmds cmd st =
    Fault
      match history (hist st) with
      | None => NullPointer
      | Some slots =>
          match slots !! Z.to_nat (history_len (hist st)) with
          | None => OutOfBounds (history_len (hist st))
          | Some None => NullPointer
          | Some (Some l) => DanglingPointer l
          end
      end st.
Proof.
  intros [es Hrep] Hargc Harg Hc Hnum Heq.
  rewrite (protosh_history_numeric parse exec cmds cmd arg st Hargc Harg Hc), Hnum, Heq.
  rewrite Z.ltb_irrefl.
  destruct Hrep as (Hb & Hlen & Hcap & Hnd & Hlive & Hslots).
  unfold replay. unfold bind at 1. unfold history_get.
  destruct (history (hist st)) as [slots|] eqn:Hh; [|done].
  destruct Hslots as (Hsize & Htake & Hstale).
  rewrite Hlen, Nat2Z.id.
  destruct (slots !! length es) as [p|] eqn:Hslot.
  - apply lookup_lt_Some in Hslot as Hbound.
    replace ((0 <=? Z.of_nat (length es)) && (Z.of_nat (length es) <? Z.of_nat (length slots)))
      with true by (symmetry; apply andb_true_iff; split; [apply Z.leb_le | apply Z.ltb_lt]; lia).
    assert (Hp : stale (mem st) p).
    { rewrite Forall_forall in Hstale. apply Hstale.
      apply list_elem_of_lookup. exists 0%nat. by rewrite lookup_drop, Nat.add_0_r. }
    unfold bind at 1. unfold strdup. unfold bind at 1. unfold load.
    destruct p as [l|]; [|done]. destruct Hp as [Hl _]. by rewrite Hl.
  - apply lookup_ge_None in Hslot.
    replace ((0 <=? Z.of_nat (length es)) && (Z.of_nat (length es) <? Z.of_nat (length slots)))
      with false by (symmetry; apply andb_false_iff; right; apply Z.ltb_ge; lia).
    done.
Qed.

(** The range check lets [N = history_len] through.  When nothing was
    ever recorded ([history] is [NULL]), or when the slot [history[N]] was
    never used (it is [NULL], as [calloc] left it), [strdup(history[N])]
    reads through a [NULL] pointer. *)
Theorem replay_one_past_the_last_entry_faults
    (cmds : commands) (cmd : command) (arg : string) (loffset : Z) (st : state) :
  store_ok HISTORY_MAXITEMS st ->
  1 < argc cmd ->
  argv cmd !! 1%nat = Some arg ->
  arg <> "-c" ->
  strtol arg = Some loffset ->
  int_of_long loffset = history_len (hist st) ->
  (history (hist st) = None
   \/ exists slots, history (hist st) = Some slots
        /\ slots !! Z.to_nat (history_len (hist st)) = Some None) ->
  protosh_history parse exec cmds cmd st = Fault NullPointer st.
Proof.
  intros Hok Hargc Harg Hc Hnum Heq Hnull.
  rewrite (replay_at_history_len cmds cmd arg loffset st Hok Hargc Harg Hc Hnum Heq).
  destruct Hnull as [-> | (slots & -> & ->)]; reflexivity.
Qed.


(** The heap after a call of [add_to_history] that finds the array
    allocated and its allocation granted. *)
Lemma add_to_history_live_heap (line : string) (st : state) (es : list (nat * string)) slots :
  represents HISTORY_MAXITEMS st es ->
  history (hist st) = Some slots ->
  (head (allocs (mem st)) <> Some false) ->
  exists st',
    add_to_history HISTORY_MAXITEMS line st = Ret 1 st'
    /\ heap (mem st')
       = heap_after_push HISTORY_MAXITEMS (heap (mem st)) es (next_loc (mem st)) line.
Proof.
  intros (Hb & Hlen & Hcap & Hnd & Hlive & Hslots) Hh Hal.
  destruct st as [[hp nl al] [h len] c w]; simpl in *. subst h.
  destruct Hslots as (Hsize & Htake & Hstale).
  pose proof (heap_bounded_fresh _ _ _ Hb) as Hfresh.
  unfold add_to_history, bind, gets, strdup_text, bind, alloc_ok; simpl.
  assert (exists al', (match al with [] => Ret true (mk_state (mk_memory hp nl al) (mk_store (Some slots) len) c w) | b :: rest => Ret b (with_mem (fun _ => mk_memory hp nl rest) (mk_state (mk_memory hp nl al) (mk_store (Some slots) len) c w)) end) = Ret true (mk_state (mk_memory hp nl al') (mk_store (Some slots) len) c w) /\ al' = tail al) as (al' & -> & Hal').
  { destruct al as [|[] rest]; simpl in *; eauto. done. }
  unfold new_buffer, ret; simpl. unfold heap_after_push. rewrite <- Hlen.
  destruct (len =? HISTORY_MAXITEMS) eqn:Hfull.
  - apply Z.eqb_eq in Hfull.
    assert (Hn : length es = length slots) by lia.
    rewrite Hn, firstn_all in Htake.
    destruct es as [|[l0 s0] es']; [simpl in *; lia|].
    rewrite fmap_cons in Htake. cbn [fst] in Htake.
    remember ((fun e : nat * string => Some e.1) <$> es') as rest eqn:Hrest.
    assert (Hrl : length rest = length es') by (subst rest; apply length_fmap).
    subst slots.
    inversion Hlive as [|? ? Hl0 Hlive']; subst x l. cbn [fst snd] in Hl0.
    assert (Hlen1 : len - 1 = Z.of_nat (length rest)) by (rewrite Hlen; simpl; lia).
    unfold history_get, free, set_history_len, modify, history_set, with_hist, with_mem; simpl.
    rewrite lookup_insert_ne by congruence. rewrite Hl0. simpl.
    assert (Hml : length (memmove_down (Some l0 :: rest)) = S (length rest)).
    { unfold memmove_down. rewrite length_app, !length_drop. simpl. lia. }
    rewrite Hml, Hlen1, Nat2Z.id.
    replace ((0 <=? Z.of_nat (length rest)) && (Z.of_nat (length rest) <? Z.of_nat (S (length rest)))) with true
      by (symmetry; apply andb_true_iff; split; [apply Z.leb_le | apply Z.ltb_lt]; lia).
    eexists. split; reflexivity.
  - apply Z.eqb_neq in Hfull. simpl.
    assert (Hlt : (length es < length slots)%nat) by lia.
    unfold history_set, set_history_len, modify, with_hist, with_mem; simpl.
    replace ((0 <=? len) && (len <? Z.of_nat (length slots))) with true
      by (symmetry; apply andb_true_iff; split; [apply Z.leb_le | apply Z.ltb_lt]; lia).
    eexists. split; reflexivity.
Qed.

(** The heap after any call of [add_to_history]: as after a push when the
    call returns 1, untouched when it returns 0. *)
Lemma add_to_history_heap (line : string) (st st' : state) (es : list (nat * string)) (v : Z) :
  represents HISTORY_MAXITEMS st es ->
  add_to_history HISTORY_MAXITEMS line st = Ret v st' ->
  (v = 1 /\ heap (mem st')
            = heap_after_push HISTORY_MAXITEMS (heap (mem st)) es (next_loc (mem st)) line)
  \/ (v = 0 /\ heap (mem st') = heap (mem st)).
Proof.
  intros Hrep Hrun.
  destruct (history (hist st)) as [slots|] eqn:Hh.
  - destruct (allocs (mem st)) as [|[] rest] eqn:Hal.
    + destruct (add_to_history_live_heap line st es slots Hrep Hh) as (st1 & Hrun1 & Hheap).
      { by rewrite Hal. }
      left. rewrite Hrun in Hrun1. by injection Hrun1 as -> ->.
    + destruct (add_to_history_live_heap line st es slots Hrep Hh) as (st1 & Hrun1 & Hheap).
      { by rewrite Hal. }
      left. rewrite Hrun in Hrun1. by injection Hrun1 as -> ->.
    + rewrite (add_to_history_strdup_fails line st slots rest Hh Hal) in Hrun.
      right. by injection Hrun as <- <-.
  - pose proof (represents_no_array st es Hrep Hh) as ->.
    assert (Hlive : forall al, head al <> Some false ->
              add_to_history HISTORY_MAXITEMS line st
              = add_to_history HISTORY_MAXITEMS line
                  (mk_state (mk_memory (heap (mem st)) (next_loc (mem st)) al)
                     (mk_store (Some (replicate (Z.to_nat HISTORY_MAXITEMS) None))
                        (history_len (hist st))) (ctx st) (io st)) ->
              v = 1 /\ heap (mem st')
                       = heap_after_push HISTORY_MAXITEMS (heap (mem st)) []
                           (next_loc (mem st)) line).
    { intros al Hal' Heq. rewrite Heq in Hrun.
      edestruct (add_to_history_live_heap line) as (st1 & Hrun1 & Hheap);
        [apply (represents_allocate_array st al), Hrep | reflexivity | exact Hal' |].
      rewrite Hrun in Hrun1. by injection Hrun1 as -> ->. }
    destruct (allocs (mem st)) as [|[] rest] eqn:Hal.
    + left. apply (Hlive []); [done|].
      rewrite add_to_history_first_call by (by rewrite ?Hal). by rewrite Hal.
    + destruct rest as [|[] rest'].
      * left. apply (Hlive []); [done|].
        rewrite add_to_history_first_call by (by rewrite ?Hal). by rewrite Hal.
      * left. apply (Hlive (true :: rest')); [done|].
        rewrite add_to_history_first_call by (by rewrite ?Hal). by rewrite Hal.
      * rewrite add_to_history_first_call in Hrun by (by rewrite ?Hal).
        rewrite Hal in Hrun. simpl tail in Hrun.
        erewrite add_to_history_strdup_fails in Hrun; [|reflexivity|reflexivity].
        right. by injection Hrun as <- <-.
    + rewrite (add_to_history_calloc_fails line st rest Hh Hal) in Hrun.
      right. by injection Hrun as <- <-.
Qed.


Lemma only_entries_size (st : state) (es : list (nat * string)) :
  represents HISTORY_MAXITEMS st es -> only_entries st es ->
  Z.of_nat (size (heap (mem st))) = history_len (hist st).
Proof.
  intros (_ & Hlen & _ & Hnd & Hlive & _) Honly.
  rewrite Hlen. f_equal. rewrite <- (length_fmap fst es).
  rewrite <- (size_list_to_set (C := gset nat) (es.*1)) by done.
  rewrite <- size_dom. f_equal. apply set_eq. intros l.
  rewrite elem_of_dom, elem_of_list_to_set. split; [apply Honly|].
  intros Hin. apply list_elem_of_fmap in Hin as ([l' s] & -> & Hin).
  rewrite Forall_forall in Hlive. specialize (Hlive _ Hin). simpl in *. by rewrite Hlive.
Qed.

Lemma only_entries_push (line : string) (st st' : state) (es : list (nat * string)) :
  NoDup es.*1 ->
  only_entries st es ->
  heap (mem st')
  = heap_after_push HISTORY_MAXITEMS (heap (mem st)) es (next_loc (mem st)) line ->
  only_entries st' (push HISTORY_MAXITEMS es (next_loc (mem st), line)).
Proof.
  intros Hnd Honly Hheap l Hl. rewrite Hheap in Hl. unfold heap_after_push in Hl.
  unfold push. rewrite fmap_app, elem_of_app. simpl.
  destruct (decide (l = next_loc (mem st))) as [->|Hne].
  { right. apply list_elem_of_singleton. done. }
  left. destruct (Z.of_nat (length es) =? HISTORY_MAXITEMS).
  - destruct es as [|[l0 s0] es']; simpl in *.
    + rewrite lookup_insert_ne in Hl by done. by apply Honly in Hl.
    + rewrite drop_0. destruct (decide (l0 = l)) as [->|Hne0].
      * rewrite lookup_delete_eq in Hl. by destruct Hl.
      * rewrite lookup_delete_ne, lookup_insert_ne in Hl by done.
        apply Honly in Hl. simpl in Hl. apply elem_of_cons in Hl as [->|Hl]; done.
  - rewrite lookup_insert_ne in Hl by done. by apply Honly.
Qed.

(** One store operation keeps the store free of buffers that are not
    entries. *)
Lemma run_store_op_owns (op : store_op) (st : state) (es : list (nat * string)) :
  represents HISTORY_MAXITEMS st es -> only_entries st es ->
  exists (v : Z) (st' : state) (es' : list (nat * string)),
    run_store_op HISTORY_MAXITEMS op st = Ret v st'
    /\ represents HISTORY_MAXITEMS st' es' /\ only_entries st' es'.
Proof.
  intros Hrep Honly. destruct op as [line|]; simpl.
  - destruct (add_to_history_step line st es Hrep)
      as (v & st' & used & Hrun & _ & Hcases & _).
    destruct (add_to_history_heap line st st' es v Hrep Hrun) as [[-> Hheap] | [-> Hheap]].
    + destruct Hcases as [(_ & _ & Hrep') | (? & _)]; [|done].
      eexists 1, st', _. split_and!; [done | exact Hrep' |].
      apply only_entries_push; [|done|done]. by destruct Hrep as (_ & _ & _ & Hnd & _).
    + destruct Hcases as [(? & _) | (_ & _ & Hrep')]; [done|].
      exists 0, st', es. split_and!; [done | done |].
      intros l Hl. rewrite Hheap in Hl. by apply Honly.
  - destruct (clear_history_spec st es Hrep)
      as (st' & Hrun & Hrep' & _ & _ & _ & _ & Hheap).
    exists 0, st', []. split_and!; [done | done |].
    intros l Hl. rewrite Hheap in Hl. destruct (decide (l ∈ es.*1)) as [Hin|Hout].
    + by destruct Hl.
    + by apply Honly in Hl.
Qed.

(** The history store does not leak.  From a state whose live
    buffers are the entries of the store and nothing else, every sequence of
    [add_to_history] and [clear_history] calls returns, whatever the
    allocator answers, in a state of the same kind: the store invariant
    holds, and the live buffers are exactly the entries.  The number of live
    buffers is then [history_len], at most [HISTORY_MAXITEMS]: the buffer of
    an evicted entry is released, a cleared store holds no buffer, and a
    failed call leaves none behind. *)
Theorem history_store_does_not_leak (ops : list store_op) (st : state)
    (es : list (nat * string)) :
  represents HISTORY_MAXITEMS st es ->
  only_entries st es ->
  exists (st' : state) (es' : list (nat * string)),
    run_store_ops HISTORY_MAXITEMS ops st = Ret tt st'
    /\ represents HISTORY_MAXITEMS st' es'
    /\ only_entries st' es'
    /\ Z.of_nat (size (heap (mem st'))) = history_len (hist st')
    /\ history_len (hist st') <= HISTORY_MAXITEMS.
Proof.
  revert st es. induction ops as [|op ops IH]; intros st es Hrep Honly.
  - exists st, es. split_and!; try done.
    + by apply (only_entries_size st es).
    + by destruct (represents_bounds st es Hrep) as [[_ ?] _].
  - destruct (run_store_op_owns op st es Hrep Honly) as (v & st1 & es1 & Hrun & Hrep1 & Honly1).
    destruct (IH st1 es1 Hrep1 Honly1) as (st' & es' & Hrun' & Hrest).
    exists st', es'. split; [|done].
    cbn [run_store_ops]. unfold bind. by rewrite Hrun.
Qed.


(** *** The index [history] prints, given back to [history] *)

Lemma digit_value_pretty_N_char (r : N) :
  (r < 10)%N -> digit_value (pretty_N_char r) = Some (Z.of_N r).
Proof.
  intros Hr.
  assert (r = 0 \/ r = 1 \/ r = 2 \/ r = 3 \/ r = 4 \/ r = 5 \/ r = 6 \/ r = 7
          \/ r = 8 \/ r = 9)%N as Hcases by lia.
  repeat (destruct Hcases as [-> | Hcases]; [reflexivity|]). by subst r.
Qed.

(** [pretty_N_go x s] puts the decimal digits of [x] before [s]. *)
Lemma digits_value_pretty_N_go (x : N) (s : string) :
  (exists k, 0 <= k /\ forall acc,
     digits_value acc (pretty_N_go x s) = digits_value (acc * 10 ^ k + Z.of_N x) s)
  /\ ((0 < x)%N -> exists c rest,
        pretty_N_go x s = String c rest /\ is_Some (digit_value c)).
Proof.
  revert s. induction (N.lt_wf_0 x) as [x _ IH]. intros s.
  destruct (decide (x = 0%N)) as [->|Hx].
  { rewrite pretty_N_go_0. split; [|lia]. exists 0. split; [done|]. intros acc.
    f_equal. simpl. lia. }
  rewrite pretty_N_go_step by lia.
  assert (Hr : (x `mod` 10 < 10)%N) by (apply N.mod_lt; lia).
  assert (Hq : (x `div` 10 < x)%N) by (apply N.div_lt; lia).
  pose proof (digit_value_pretty_N_char _ Hr) as Hd.
  destruct (IH _ Hq (String (pretty_N_char (x `mod` 10)) s)) as [(k & Hk & Hval) Hhead].
  split.
  - exists (k + 1). split; [lia|]. intros acc. rewrite Hval. cbn [digits_value].
    rewrite Hd. f_equal. rewrite Z.pow_add_r by lia.
    pose proof (N.Div0.div_mod x 10%N) as Hx10.
    assert (Z.of_N x = 10 * Z.of_N (x `div` 10)%N + Z.of_N (x `mod` 10)%N) by lia.
    lia.
  - intros _. destruct (decide ((x `div` 10)%N = 0%N)) as [->|Hq0].
    + rewrite pretty_N_go_0. eexists _, _. split; [done|]. by rewrite Hd.
    + apply Hhead. by apply N.neq_0_lt_0.
Qed.

Lemma strtol_digits (c : ascii) (rest : string) :
  is_Some (digit_value c) ->
  strtol (String c rest) = Some (clamp_long (digits_value 0 (String c rest))).
Proof.
  intros Hd. unfold strtol. cbn [skip_spaces]. rewrite (digit_not_space c Hd).
  destruct Hd as [d Hd].
  destruct c as [[] [] [] [] [] [] [] []]; (try by vm_compute in Hd);
    cbv beta iota; cbn [digits_value]; by rewrite Hd.
Qed.

(** [strtol] reads back the decimal notation ["%d"] prints. *)
Lemma strtol_pretty (i : Z) : 0 <= i <= LONG_MAX -> strtol (pretty i) = Some i.
Proof.
  intros Hi. destruct i as [|p|p]; [reflexivity | | lia].
  change (pretty (Z.pos p)) with (pretty_N_go (N.pos p) "").
  destruct (digits_value_pretty_N_go (N.pos p) "") as [(k & _ & Hval) Hhead].
  destruct (Hhead ltac:(lia)) as (c & rest & Heq & Hd).
  rewrite Heq, strtol_digits by done. rewrite <- Heq, Hval. cbn [digits_value].
  f_equal. unfold clamp_long, LONG_MAX, LONG_MIN in *. simpl Z.of_N. lia.
Qed.

Lemma pretty_is_not_the_clear_flag (i : Z) : 0 <= i -> pretty i <> "-c".
Proof.
  intros Hi. destruct i as [|p|p]; [done | | lia].
  change (pretty (Z.pos p)) with (pretty_N_go (N.pos p) "").
  apply pretty_N_go_ne_dash. done.
Qed.


(** The index [history] prints is the number to give back.  When the
    store holds [texts] and [text] is its entry of index [i], the listing
    shows the line [i text], and the handler called with the argument [i],
    written as the listing wrote it, passes the conversion and the range
    check and runs [exec_commands] on the parse of a fresh copy of [text],
    with the replay pointers set; [HISTORY_MAXITEMS] fits in an [int], as
    [history_len] does. *)
Theorem listed_index_replays_its_entry (cmds : commands) (cmd : command) (i : nat)
    (texts : list string) (text : string) (st : state) :
  HISTORY_MAXITEMS <= INT_MAX ->
  store_ok HISTORY_MAXITEMS st ->
  history_entries st = Some texts ->
  texts !! i = Some text ->
  head (allocs (mem st)) <> Some false ->
  1 < argc cmd ->
  argv cmd !! 1%nat = Some (pretty (Z.of_nat i)) ->
  let line := next_loc (mem st) in
  let st1 :=
    mk_state
      (mk_memory (<[line := text]> (heap (mem st))) (S line) (tail (allocs (mem st))))
      (hist st)
      (mk_replay_context (Some cmd) (Some cmds) (Some line))
      (io st) in
  listing 0 texts !! i = Some (pretty (Z.of_nat i) +:+ " " +:+ text +:+ LF)
  /\ strtol (pretty (Z.of_nat i)) = Some (Z.of_nat i)
  /\ protosh_history parse exec cmds cmd st
     = (exec (parse text) ;;; free (Some line) ;;;
        set_replay_context None None None ;;; ret 0) st1.
Proof.
  intros Hmax Hok Hentries Hi Hal Hargc Harg line st1.
  assert (Hlt : Z.of_nat i < history_len (hist st) <= HISTORY_MAXITEMS).
  { destruct Hok as (es & Hrep).
    pose proof (represents_entries st es Hrep) as Hes.
    destruct (represents_bounds st es Hrep) as [[_ Hcap] Hlen].
    rewrite Hentries in Hes. injection Hes as ->.
    apply lookup_lt_Some in Hi. lia. }
  assert (Hconv : strtol (pretty (Z.of_nat i)) = Some (Z.of_nat i)).
  { apply strtol_pretty. unfold INT_MAX, LONG_MAX in *. lia. }
  split_and!.
  - unfold listing. rewrite list_lookup_imap, Hi. reflexivity.
  - done.
  - rewrite (protosh_history_numeric parse exec cmds cmd _ st Hargc Harg) by
      (apply pretty_is_not_the_clear_flag; lia).
    rewrite Hconv. rewrite int_of_long_small by (unfold INT_MIN, INT_MAX in *; lia).
    replace (history_len (hist st) <? Z.of_nat i) with false
      by (symmetry; apply Z.ltb_ge; lia).
    destruct (replay_valid_index cmds cmd
                (Z.of_nat i) texts text st Hok Hentries ltac:(lia)
                ltac:(by rewrite Nat2Z.id) Hal) as [Hrun _].
    exact Hrun.
Qed.

(** A replay releases its copy of the line.  [history <N>] with a
    valid index duplicates the entry into the buffer [line] and runs the
    command on it; when the command returns and [line] is still live, the
    handler frees [line], clears the replay pointers and returns 0, whatever
    the command returned; what the command did to the history store and to
    the outside world stays.  If the command left the heap as it found it,
    the heap is then what it was before [history <N>]: no buffer is left
    behind. *)
Theorem replay_releases_its_copy
    (cmds : commands) (cmd : command) (arg : string) (loffset : Z)
    (texts : list string) (text copy : string) (st st2 : state) (v : Z) :
  1 < argc cmd ->
  argv cmd !! 1%nat = Some arg ->
  arg <> "-c" ->
  strtol arg = Some loffset ->
  store_ok HISTORY_MAXITEMS st ->
  history_entries st = Some texts ->
  0 <= int_of_long loffset ->
  texts !! Z.to_nat (int_of_long loffset) = Some text ->
  head (allocs (mem st)) <> Some false ->
  let line := next_loc (mem st) in
  let st1 :=
    mk_state
      (mk_memory (<[line := text]> (heap (mem st))) (S line) (tail (allocs (mem st))))
      (hist st)
      (mk_replay_context (Some cmd) (Some cmds) (Some line))
      (io st) in
  exec (parse text) st1 = Ret v st2 ->
  heap (mem st2) !! line = Some copy ->
  exists st',
    protosh_history parse exec cmds cmd st = Ret 0 st'
    /\ heap (mem st') = delete line (heap (mem st2))
    /\ next_loc (mem st') = next_loc (mem st2)
    /\ hist st' = hist st2
    /\ ctx st' = null_context
    /\ io st' = io st2
    /\ (heap (mem st2) = heap (mem st1) -> heap (mem st') = heap (mem st)).
Proof.
  intros Hargc Harg Hc Hnum Hok Hentries HN Htext Hal line st1 Hexec Hlive.
  assert (Hrange : int_of_long loffset < history_len (hist st)).
  { destruct Hok as [es Hrep].
    rewrite (represents_entries st es Hrep) in Hentries. injection Hentries as <-.
    apply lookup_lt_Some in Htext. rewrite length_fmap in Htext.
    destruct Hrep as (_ & -> & _). lia. }
  rewrite (protosh_history_numeric parse exec cmds cmd arg st Hargc Harg Hc), Hnum.
  replace (history_len (hist st) <? int_of_long loffset) with false
    by (symmetry; apply Z.ltb_ge; lia).
  destruct (replay_valid_index cmds cmd (int_of_long loffset) texts text st
              Hok Hentries HN Htext Hal) as (Hrun & Hfresh & _).
  rewrite Hrun. fold line. fold st1. unfold bind at 1. rewrite Hexec.
  unfold bind at 1. unfold free. rewrite Hlive.
  eexists. split; [reflexivity|]. cbn [mem heap next_loc hist ctx io with_mem with_ctx].
  split_and!; try done.
  intros Hsame. rewrite Hsame. unfold st1. cbn [mem heap].
  by apply delete_insert_id.
Qed.

End Store.

(** ** The interpreter loop *)

Section Loop.

(** *** The other builtins and external programs *)


(** The [waitpid] loop returns exactly when the child is reported to have
    exited or been killed. *)
Lemma wait_loop_outcome (reports : list wait_status) (st : state) :
  wait_loop reports st = if ends reports then Ret tt st else Unfinished.
Proof. induction reports as [|[] reports IH]; by simpl. Qed.

(** How [protosh_launch] ends.  It returns 1 when [fork] fails, with the
    error reported and nothing else done, and when the child comes to an
    end, with the program recorded and what the child has read gone from
    [stdin]; it does not return when the child does not come to an end. *)
Lemma protosh_launch_outcome (args : list string) (st : state) :
  match protosh_launch args st with
  | Ret v st' =>
      v = 1 /\ mem st' = mem st /\ hist st' = hist st /\ ctx st' = ctx st
      /\ stdout (io st') = stdout (io st) /\ chdirs (io st') = chdirs (io st)
      /\ ((fork_succeeds (io st) = true
           /\ ends (reports (child_to_come (io st))) = true
           /\ spawned (io st') = spawned (io st) ++ [args]
           /\ stdin (io st') = drop (consumed (child_to_come (io st))) (stdin (io st))
           /\ stderr (io st') = stderr (io st)
           /\ children (io st') = tail (children (io st)))
          \/ (fork_succeeds (io st) = false
              /\ spawned (io st') = spawned (io st)
              /\ stdin (io st') = stdin (io st)
              /\ stderr (io st') = stderr (io st) ++ [Perror "protosh"]
              /\ children (io st') = children (io st)))
  | Unfinished =>
      fork_succeeds (io st) = true /\ ends (reports (child_to_come (io st))) = false
  | Exit _ _ => False
  | Fault _ _ => False
  end.
Proof.
  destruct st as [m h c [i o e d s y k]].
  unfold protosh_launch, bind, syscall_ok, fork_succeeds, child_to_come, next_child,
    record_spawn, set_stdin, gets, modify, perror.
  cbn [io syscalls children with_io stdin].
  destruct y as [|[] y]; cbn [io syscalls children with_io stdin];
    try (destruct k as [|child k]; cbn [io syscalls children with_io stdin consumed reports];
         rewrite wait_loop_outcome;
         [cbn; split_and!; try done; left; by split_and!
         |destruct (ends (reports child)); cbn; [|done];
          split_and!; try done; left; by split_and!]).
  cbn. split_and!; try done. right. by split_and!.
Qed.


(** *** What a turn of the loop leaves untouched *)

Lemma keeps_store_bind {A B} (m : M A) (k : A -> M B) (st : state) :
  keeps_store st (m st) ->
  (forall a st1, m st = Ret a st1 -> keeps_store st1 (k a st1)) ->
  keeps_store st (bind m k st).
Proof.
  unfold bind. destruct (m st) as [a st1| | |]; simpl; try done.
  intros Hm Hk. specialize (Hk a st1 eq_refl).
  destruct (k a st1); simpl in *; congruence.
Qed.

Lemma keeps_store_alloc_ok (st : state) : keeps_store st (alloc_ok st).
Proof. unfold alloc_ok. by destruct (allocs (mem st)). Qed.


Lemma keeps_store_free (p : option nat) (st : state) : keeps_store st (free p st).
Proof. unfold free. destruct p as [l|]; [|done]. by destruct (heap (mem st) !! l). Qed.

Lemma keeps_store_load (p : option nat) (st : state) : keeps_store st (load p st).
Proof. unfold load. destruct p as [l|]; [|done]. by destruct (heap (mem st) !! l). Qed.

Lemma keeps_store_read_line_loop (pending : list ascii) (buffer : nat)
    (bytes : list ascii) (position bufsize : Z) (st : state) :
  keeps_store st (read_line_loop pending buffer bytes position bufsize st).
Proof.
  revert bytes position bufsize st.
  induction pending as [|c rest IH]; intros bytes position bufsize st; [done|].
  cbn [read_line_loop]. destruct (char_code c =? 10).
  - unfold bind, set_stdin, modify, store_buffer. simpl.
    by destruct (heap (mem st) !! buffer).
  - destruct (bufsize <=? position + 1); [|apply IH].
    apply keeps_store_bind; [apply keeps_store_alloc_ok|].
    intros [] st1 Hrun; [apply IH | done].
Qed.

Lemma keeps_store_read_line (st : state) : keeps_store st (protosh_read_line st).
Proof.
  unfold protosh_read_line.
  apply keeps_store_bind; [apply keeps_store_alloc_ok|].
  intros [] st1 _; [|done].
  apply keeps_store_bind; [done|]. intros buffer st2 _.
  apply keeps_store_bind; [done|]. intros pending st3 _.
  apply keeps_store_read_line_loop.
Qed.

Lemma keeps_store_split_line_loop (remaining tokens : list string)
    (position bufsize : Z) (st : state) :
  keeps_store st (split_line_loop remaining tokens position bufsize st).
Proof.
  revert tokens position bufsize st.
  induction remaining as [|token rest IH]; intros tokens position bufsize st; [done|].
  cbn [split_line_loop]. destruct (bufsize <=? position + 1); [|apply IH].
  apply keeps_store_bind; [apply keeps_store_alloc_ok|].
  intros [] st1 Hrun; [apply IH | done].
Qed.

Lemma keeps_store_split_line (line : nat) (st : state) :
  keeps_store st (protosh_split_line line st).
Proof.
  unfold protosh_split_line.
  apply keeps_store_bind; [apply keeps_store_alloc_ok|].
  intros [] st1 _; [|done].
  apply keeps_store_bind; [apply keeps_store_load|]. intros text st2 _.
  apply keeps_store_bind; [|intros; apply keeps_store_split_line_loop].
  unfold store_buffer. by destruct (heap (mem st2) !! line).
Qed.

Lemma keeps_store_cd (args : list string) (st : state) :
  keeps_store st (protosh_cd args st).
Proof.
  unfold protosh_cd. destruct (args !! 1%nat); [|done].
  unfold bind, syscall_ok. by destruct (syscalls (io st)) as [|[] ?].
Qed.

Lemma keeps_store_launch (args : list string) (st : state) :
  keeps_store st (protosh_launch args st).
Proof.
  pose proof (protosh_launch_outcome args st) as Hout.
  destruct (protosh_launch args st) as [v st'|n st'|f st'|]; try done.
  by destruct Hout as (_ & _ & Hh & _).
Qed.

Lemma keeps_store_execute (args : list string) (st : state) :
  hd_error args <> Some "history" ->
  keeps_store st (protosh_execute args st).
Proof.
  intros Hhd. destruct args as [|name args]; [done|].
  unfold protosh_execute, builtin_str. cbn [find_builtin].
  destruct (String.eqb name "cd"); [apply keeps_store_cd|].
  destruct (String.eqb name "help"); [done|].
  destruct (String.eqb name "exit"); [done|].
  destruct (String.eqb name "history") eqn:E.
  - apply String.eqb_eq in E. subst name. done.
  - apply keeps_store_launch.
Qed.

(** One turn of the interpreter loop on a line whose first word is not
    [history] leaves the history store as it was, however the turn ends:
    the loop itself records nothing. *)
Theorem loop_turn_keeps_the_store (st : state) :
  (forall line st1 args st2,
     protosh_read_line (printed ["> "] st) = Ret line st1 ->
     protosh_split_line line st1 = Ret args st2 ->
     hd_error args <> Some "history") ->
  keeps_store st (protosh_loop_body st).
Proof.
  intros Hwords. unfold protosh_loop_body.
  apply keeps_store_bind; [done|]. intros [] st0 Hprint.
  injection Hprint as <-.
  change (with_io _ st) with (printed ["> "] st).
  assert (Hsame : hist (printed ["> "] st) = hist st) by done.
  assert (Hgoal : keeps_store (printed ["> "] st)
            (bind protosh_read_line (fun line =>
               bind (protosh_split_line line) (fun args =>
                 bind (protosh_execute args) (fun status =>
                   bind (free (Some line)) (fun _ => ret status))))
               (printed ["> "] st))).
  { apply keeps_store_bind; [apply keeps_store_read_line|]. intros line st1 Hread.
    apply keeps_store_bind; [apply keeps_store_split_line|]. intros args st2 Hsplit.
    apply keeps_store_bind; [apply keeps_store_execute; by eapply Hwords|].
    intros status st3 _.
    apply keeps_store_bind; [apply keeps_store_free|]. done. }
  revert Hgoal.
  match goal with |- keeps_store _ ?o -> keeps_store _ ?o' => change o' with o; destruct o end;
    simpl; congruence.
Qed.

(** *** A line typed at the prompt *)

(** C2 fails on the code.  [protosh_loop] never calls [add_to_history]: after
    the line [ls], read and executed by a fresh interpreter, the program was
    spawned and the history store is as empty as before, its array not even
    allocated. *)
Theorem loop_does_not_record_the_line (rest : list ascii) :
  exists st',
    protosh_loop_body
      (initial_state (list_ascii_of_string ("ls" +:+ LF) ++ rest) [] [] []) = Ret 1 st'
    /\ spawned (io st') = [["ls"]]
    /\ hist st' = mk_store None 0
    /\ history_entries st' = Some []
    /\ history_entries st' <> Some ["ls"].
Proof.
  eexists. split_and!; [vm_compute; reflexivity | reflexivity..| done].
Qed.

End Loop.

(** ** [is_history_command] *)

Section HistoryCommand.


(** [is_history_command] answers 1 exactly on the texts that start with
    the seven characters [history], whatever follows ([history], but also
    [history -c] and [historyx]), and 0 on every other text, shorter ones
    included. *)
Theorem is_history_command_is_prefix_test (input : string) :
  (is_history_command input = 1 <-> exists rest, input = "history" +:+ rest)
  /\ (is_history_command input = 0 <-> ~ exists rest, input = "history" +:+ rest).
Proof.
  assert (Hone : is_history_command input = 1 <-> exists rest, input = "history" +:+ rest).
  { split.
    - unfold is_history_command.
      destruct input as [|c1 [|c2 [|c3 [|c4 [|c5 [|c6 [|c7 rest]]]]]]]; try discriminate.
      cbn [String.length Nat.ltb Nat.leb seq history_key_loop char_at String.get].
      repeat match goal with
             | |- context [Ascii.eqb ?a ?b] =>
                 destruct (Ascii.eqb_spec a b); [subst a | discriminate]
             end.
      intros _. by exists rest.
    - intros [rest ->]. reflexivity. }
  split; [exact Hone|].
  assert (Hcases : is_history_command input = 0 \/ is_history_command input = 1).
  { unfold is_history_command.
    destruct (String.length input <? String.length "history")%nat; [by left|].
    generalize (seq 0 (String.length "history")). intros indices.
    induction indices as [|i indices IH]; [by right|]. simpl.
    by destruct (Ascii.eqb (char_at input i) (char_at "history" i)); [|left]. }
  rewrite <- Hone. destruct Hcases as [H|H]; rewrite H; split; try done.
Qed.

End HistoryCommand.

(** ** The tokenizer *)

Section Tokenizer.


Lemma list_ascii_of_string_app (a b : string) :
  list_ascii_of_string (a +:+ b) = list_ascii_of_string a ++ list_ascii_of_string b.
Proof. induction a as [|c a IH]; simpl; [done|]. by rewrite IH. Qed.

Lemma delimiter_free_snoc (cur : string) (c : ascii) :
  delimiter_free cur -> is_tok_delim c = false -> delimiter_free (cur +:+ String c "").
Proof.
  unfold delimiter_free. intros Hcur Hc. rewrite list_ascii_of_string_app.
  apply Forall_app. split; [done|]. by repeat constructor.
Qed.

Lemma string_app_nil_r (s : string) : s +:+ "" = s.
Proof.
  induction s as [|c s IH]; [done|].
  change (String c s +:+ "") with (String c (s +:+ "")). by rewrite IH.
Qed.

Lemma string_app_assoc (a b c : string) : (a +:+ b) +:+ c = a +:+ (b +:+ c).
Proof.
  induction a as [|x a IH]; [done|].
  change ((String x a +:+ b) +:+ c) with (String x ((a +:+ b) +:+ c)).
  by rewrite IH.
Qed.

Lemma string_snoc_not_empty (cur : string) (c : ascii) : cur +:+ String c "" <> "".
Proof. by destruct cur. Qed.

(** Every token is a word: not empty, and without delimiter. *)
Lemma strtok_tokens_are_words (line cur : string) :
  delimiter_free cur -> Forall is_word (strtok_tokens line cur).
Proof.
  revert cur. induction line as [|c line IH]; intros cur Hcur; simpl.
  - destruct (String.eqb_spec cur ""); [constructor|]. by repeat constructor.
  - destruct (is_tok_delim c) eqn:Hc.
    + destruct (String.eqb_spec cur "").
      * apply IH. constructor.
      * constructor; [done|]. apply IH. constructor.
    + apply IH. by apply delimiter_free_snoc.
Qed.

(** A delimiter-free text is read into the current token. *)
Lemma strtok_tokens_word (w line cur : string) :
  delimiter_free w ->
  strtok_tokens (w +:+ line) cur = strtok_tokens line (cur +:+ w).
Proof.
  revert cur. induction w as [|c w IH]; intros cur Hw.
  - change ("" +:+ line) with line. by rewrite string_app_nil_r.
  - inversion Hw as [|? ? Hc Hw']; subst.
    change (String c w +:+ line) with (String c (w +:+ line)).
    cbn [strtok_tokens]. rewrite Hc, IH by done. by rewrite string_app_assoc.
Qed.

(** Delimiters between tokens: the first ends the current token, the others
    are skipped. *)
Lemma strtok_tokens_gap (gap line cur : string) :
  Forall (fun c => is_tok_delim c = true) (list_ascii_of_string gap) ->
  strtok_tokens (gap +:+ line) cur =
    if String.eqb gap "" then strtok_tokens line cur
    else if String.eqb cur "" then strtok_tokens line ""
    else cur :: strtok_tokens line "".
Proof.
  revert cur. induction gap as [|c gap IH]; intros cur Hgap; [done|].
  inversion Hgap as [|? ? Hc Hgap']; subst.
  change (String c gap +:+ line) with (String c (gap +:+ line)).
  cbn [strtok_tokens]. rewrite Hc.
  change (String c gap =? "")%string with false. cbv iota.
  destruct (String.eqb cur ""); rewrite IH by done;
    by destruct (String.eqb gap "").
Qed.

(** Words joined by single spaces are split into these words. *)
Lemma strtok_tokens_join (words : list string) :
  Forall is_word words ->
  strtok_tokens (String.concat " " words) "" = words.
Proof.
  induction words as [|w words IH]; intros Hwords; [done|].
  inversion Hwords as [|? ? [Hne Hw] Hrest]; subst.
  destruct words as [|w' words].
  - change (String.concat " " [w]) with w.
    rewrite <- (string_app_nil_r w) at 1. rewrite strtok_tokens_word by done.
    change ("" +:+ w) with w. cbn [strtok_tokens].
    destruct (String.eqb_spec w ""); [congruence | reflexivity].
  - change (String.concat " " (w :: w' :: words))
      with (w +:+ (" " +:+ String.concat " " (w' :: words))).
    rewrite strtok_tokens_word by done. change ("" +:+ w) with w.
    rewrite (strtok_tokens_gap " " _ w) by (by repeat constructor).
    change (" " =? "")%string with false. cbv iota.
    destruct (String.eqb_spec w ""); [congruence|]. f_equal. by apply IH.
Qed.

(** A text of delimiters holds no token. *)
Lemma strtok_tokens_blank (blanks : string) :
  Forall (fun c => is_tok_delim c = true) (list_ascii_of_string blanks) ->
  strtok_tokens blanks "" = [].
Proof.
  intros Hblanks. rewrite <- (string_app_nil_r blanks).
  rewrite strtok_tokens_gap by done. by destruct (String.eqb blanks "").
Qed.

Lemma same_but_oracle_refl (st : state) : same_but_oracle st st.
Proof. by unfold same_but_oracle. Qed.

Lemma same_but_oracle_trans (st1 st2 st3 : state) :
  same_but_oracle st1 st2 -> same_but_oracle st2 st3 -> same_but_oracle st1 st3.
Proof.
  unfold same_but_oracle. intros (? & ? & ? & ? & ?) (? & ? & ? & ? & ?).
  split_and!; congruence.
Qed.

(** An allocation request changes the oracle only, and succeeds when no
    allocation is to fail. *)
Lemma alloc_ok_spec (st : state) :
  exists (b : bool) (st1 : state),
    alloc_ok st = Ret b st1
    /\ same_but_oracle st st1
    /\ (no_alloc_failure st -> b = true /\ no_alloc_failure st1).
Proof.
  unfold alloc_ok, no_alloc_failure. destruct st as [[hp nl al] h c w]; simpl.
  destruct al as [|b rest]; simpl.
  - exists true. eexists. split_and!; done.
  - exists b. eexists. split_and!; try done.
    intros Hall. by inversion Hall; subst.
Qed.

(** The loop of [protosh_split_line] when it returns: the tokens it had and
    those it was given, in order. *)
Lemma split_line_loop_result (remaining tokens : list string) (position bufsize : Z)
    (st : state) :
  match split_line_loop remaining tokens position bufsize st with
  | Ret found st' => found = tokens ++ remaining /\ same_but_oracle st st'
  | Exit n _ => n = EXIT_FAILURE /\ ~ no_alloc_failure st
  | Fault _ _ => False
  | Unfinished => False
  end
  /\ (no_alloc_failure st ->
        exists st', split_line_loop remaining tokens position bufsize st
                    = Ret (tokens ++ remaining) st'
          /\ no_alloc_failure st').
Proof.
  revert tokens position bufsize st.
  induction remaining as [|token rest IH]; intros tokens position bufsize st.
  - simpl. rewrite app_nil_r. split; [by split; [|apply same_but_oracle_refl]|].
    intros Hna. by exists st.
  - cbn [split_line_loop]. destruct (bufsize <=? position + 1).
    + unfold bind.
      destruct (alloc_ok_spec st) as (b & st1 & Halloc & Hsame & Hna1).
      rewrite !Halloc. destruct b.
      * destruct (IH (tokens ++ [token]) (position + 1) (bufsize + protosh_TOK_BUFSIZE) st1)
          as [Hout Hgood].
        rewrite <- app_assoc in Hout, Hgood. simpl in Hout, Hgood. split.
        -- destruct (split_line_loop rest _ _ _ st1) as [found st'|n st'|f st'|];
             try done.
           ++ destruct Hout as [-> Hsame']. split; [done|].
              by apply (same_but_oracle_trans st st1 st').
           ++ destruct Hout as [-> Hfail]. split; [done|].
              intros Hna. apply Hfail. by apply Hna1.
        -- intros Hna. apply Hgood. by apply Hna1.
      * split.
        -- unfold eprint, modify; simpl. split; [done|].
           intros Hna. by destruct (Hna1 Hna).
        -- intros Hna. by destruct (Hna1 Hna).
    + destruct (IH (tokens ++ [token]) (position + 1) bufsize st) as [Hout Hgood].
      rewrite <- app_assoc in Hout, Hgood. simpl in Hout, Hgood. by split.
Qed.

(** What [strtok] leaves of a line that starts with the word [w]. *)
Lemma strtok_cut_word (w rest : string) (in_token : bool) :
  delimiter_free w ->
  strtok_cut (w +:+ rest) in_token
  = w +:+ strtok_cut rest (in_token || negb (String.eqb w "")).
Proof.
  revert in_token. induction w as [|c w IH]; intros in_token Hw.
  - change ("" +:+ rest) with rest. cbn [String.eqb negb]. by rewrite orb_false_r.
  - inversion Hw as [|? ? Hc Hw']; subst.
    change (String c w +:+ rest) with (String c (w +:+ rest)).
    cbn [strtok_cut]. rewrite Hc, IH by done.
    change (String c w =? "")%string with false. cbn [negb].
    by rewrite orb_true_r.
Qed.

(** Of words joined by single spaces [strtok] leaves the first. *)
Lemma strtok_cut_join (words : list string) :
  Forall is_word words ->
  strtok_cut (String.concat " " words) false = hd "" words.
Proof.
  destruct words as [|w words]; intros Hwords; [done|].
  inversion Hwords as [|? ? [Hne Hw] Hrest]; subst. cbn [hd].
  destruct words as [|w' words].
  - change (String.concat " " [w]) with w.
    rewrite <- (string_app_nil_r w) at 1. rewrite strtok_cut_word by done.
    cbn [strtok_cut]. apply string_app_nil_r.
  - change (String.concat " " (w :: w' :: words))
      with (w +:+ (" " +:+ String.concat " " (w' :: words))).
    rewrite strtok_cut_word by done.
    destruct (String.eqb_spec w ""); [congruence|].
    cbn. apply string_app_nil_r.
Qed.

(** A line without token is not written to. *)
Lemma strtok_cut_blank (blanks : string) :
  Forall (fun c => is_tok_delim c = true) (list_ascii_of_string blanks) ->
  strtok_cut blanks false = blanks.
Proof.
  induction blanks as [|c blanks IH]; intros Hblanks; [done|].
  inversion Hblanks as [|? ? Hc Hrest]; subst.
  cbn [strtok_cut]. by rewrite Hc, IH.
Qed.

(** How [protosh_split_line] ends on a live line buffer. *)
Lemma protosh_split_line_outcome (line : nat) (text : string) (st : state) :
  heap (mem st) !! line = Some text ->
  match protosh_split_line line st with
  | Ret args st' =>
      args = strtok_tokens text ""
      /\ heap (mem st') = <[line := strtok_cut text false]> (heap (mem st))
      /\ next_loc (mem st') = next_loc (mem st)
      /\ hist st' = hist st /\ ctx st' = ctx st /\ io st' = io st
      /\ (no_alloc_failure st -> no_alloc_failure st')
  | Exit n _ => n = EXIT_FAILURE /\ ~ no_alloc_failure st
  | Fault _ _ => False
  | Unfinished => False
  end.
Proof.
  intros Hlive. unfold protosh_split_line. unfold bind at 1.
  destruct (alloc_ok_spec st) as (b & st1 & -> & Hsame & Hna1).
  destruct Hsame as (Hheap & Hnl & Hh & Hctx & Hio).
  destruct b.
  - unfold bind at 1. unfold load. rewrite Hheap, Hlive.
    unfold bind at 1. unfold store_buffer. rewrite Hheap, Hlive.
    set (st2 := with_mem _ st1).
    assert (Hna2 : no_alloc_failure st1 -> no_alloc_failure st2) by done.
    pose proof (split_line_loop_result (strtok_tokens text "") [] 0
                  protosh_TOK_BUFSIZE st2) as [Hout Hgood].
    destruct (split_line_loop (strtok_tokens text "") [] 0 protosh_TOK_BUFSIZE st2)
      as [args st3|n st3|f st3|]; try done.
    + destruct Hout as [-> (Hheap3 & Hnl3 & Hh3 & Hctx3 & Hio3)].
      rewrite Hheap3, Hnl3, Hh3, Hctx3, Hio3. unfold st2.
      cbn [mem heap next_loc hist ctx io with_mem]. split_and!; try done.
      intros Hna. destruct (Hna1 Hna) as [_ Hna'].
      destruct (Hgood (Hna2 Hna')) as (st3' & Hrun & Hna3).
      assert (st3' = st3) by congruence. by subst.
    + destruct Hout as [-> Hfail]. split; [done|]. intros Hna.
      apply Hfail, Hna2. by apply Hna1.
  - unfold bind, eprint, modify. simpl. split; [done|].
    intros Hna. by destruct (Hna1 Hna).
Qed.

(** [protosh_split_line] on a live line, when no allocation fails: the words
    of the line, every one not empty and without delimiter.  The only write
    is the one [strtok] does: the line is cut after its first word; no other
    buffer changes, nor the history store, the replay pointers and the
    outside world (the array of the words is held by value).  Splitting is
    the inverse of joining words with single spaces, and a line of
    delimiters gives no word at all and is not written to. *)
Theorem protosh_split_line_gives_the_words (line : nat) (text : string) (st : state) :
  heap (mem st) !! line = Some text ->
  no_alloc_failure st ->
  exists st',
    protosh_split_line line st = Ret (strtok_tokens text "") st'
    /\ heap (mem st') = <[line := strtok_cut text false]> (heap (mem st))
    /\ next_loc (mem st') = next_loc (mem st)
    /\ hist st' = hist st /\ ctx st' = ctx st /\ io st' = io st
    /\ no_alloc_failure st'
    /\ Forall is_word (strtok_tokens text "")
    /\ (forall words, Forall is_word words -> text = String.concat " " words ->
          strtok_tokens text "" = words /\ strtok_cut text false = hd "" words)
    /\ (Forall (fun c => is_tok_delim c = true) (list_ascii_of_string text) ->
          strtok_tokens text "" = [] /\ strtok_cut text false = text).
Proof.
  intros Hlive Hna.
  pose proof (protosh_split_line_outcome line text st Hlive) as Hout.
  destruct (protosh_split_line line st) as [args st'|n st'|f st'|]; try done.
  - destruct Hout as (-> & Hheap & Hnl & Hh & Hctx & Hio & Hna').
    exists st'. split_and!; try done.
    + by apply Hna'.
    + apply strtok_tokens_are_words. constructor.
    + intros words Hwords ->. split; [by apply strtok_tokens_join | by apply strtok_cut_join].
    + intros Hblank. split; [by apply strtok_tokens_blank | by apply strtok_cut_blank].
  - by destruct Hout as [_ Hfail].
Qed.

End Tokenizer.

(** ** The reader *)

Section Reader.


Lemma first_line_unique (pending line rest line' rest' : list ascii) :
  first_line pending line rest -> first_line pending line' rest' ->
  line' = line /\ rest' = rest.
Proof.
  intros (c & -> & Hc & Hline) (c' & Heq & Hc' & Hline').
  revert line' Heq Hline'. induction Hline as [|b line Hb _ IH]; intros line' Heq Hline'.
  - destruct Hline' as [|b' line' Hb' _]; simpl in Heq.
    + by injection Heq as _ ->.
    + injection Heq as -> _. congruence.
  - destruct Hline' as [|b' line' Hb' Hline']; simpl in Heq.
    + injection Heq as -> _. congruence.
    + injection Heq as -> Heq. destruct (IH line' Heq Hline') as [-> ->]. done.
Qed.

Lemma first_line_has_newline (pending line rest : list ascii) :
  first_line pending line rest -> ~ Forall (fun b => is_newline b = false) pending.
Proof.
  intros (c & -> & Hc & _) Hall. apply Forall_app in Hall as [_ Hall].
  inversion Hall; congruence.
Qed.

(** How the loop of [protosh_read_line] ends, with a live [buffer]. *)
Lemma read_line_loop_outcome (pending : list ascii) (buffer : nat) (bytes : list ascii)
    (position bufsize : Z) (st : state) :
  is_Some (heap (mem st) !! buffer) ->
  match read_line_loop pending buffer bytes position bufsize st with
  | Ret b st' =>
      b = buffer
      /\ (exists line, first_line pending line (stdin (io st'))
            /\ heap (mem st') = <[buffer := c_string (bytes ++ line)]> (heap (mem st)))
      /\ next_loc (mem st') = next_loc (mem st)
      /\ hist st' = hist st /\ ctx st' = ctx st
      /\ same_but_stdin (io st) (io st')
      /\ (no_alloc_failure st -> no_alloc_failure st')
  | Exit n st' =>
      (n = EXIT_SUCCESS
       /\ Forall (fun b => is_newline b = false) pending
       /\ stdin (io st') = []
       /\ same_but_stdin (io st) (io st')
       /\ heap (mem st') = heap (mem st)
       /\ hist st' = hist st /\ ctx st' = ctx st)
      \/ (n = EXIT_FAILURE /\ ~ no_alloc_failure st)
  | Fault _ _ => False
  | Unfinished => False
  end.
Proof.
  revert bytes position bufsize st.
  induction pending as [|c rest IH]; intros bytes position bufsize st [old Hlive].
  - simpl. left. by split_and!.
  - cbn [read_line_loop]. fold (is_newline c). destruct (is_newline c) eqn:Hc.
    + unfold bind, set_stdin, modify, store_buffer; simpl. rewrite Hlive. simpl.
      split_and!; try done.
      exists []. rewrite app_nil_r. split; [|done]. exists c. by split_and!.
    + assert (Hstep : forall st1 bufsize',
                same_but_oracle st st1 ->
                (no_alloc_failure st -> no_alloc_failure st1) ->
                match read_line_loop rest buffer (bytes ++ [c]) (position + 1) bufsize' st1 with
                | Ret b st' =>
                    b = buffer
                    /\ (exists line, first_line (c :: rest) line (stdin (io st'))
                          /\ heap (mem st') = <[buffer := c_string (bytes ++ line)]> (heap (mem st)))
                    /\ next_loc (mem st') = next_loc (mem st)
                    /\ hist st' = hist st /\ ctx st' = ctx st
                    /\ same_but_stdin (io st) (io st')
                    /\ (no_alloc_failure st -> no_alloc_failure st')
                | Exit n st' =>
                    (n = EXIT_SUCCESS
                     /\ Forall (fun b => is_newline b = false) (c :: rest)
                     /\ stdin (io st') = []
                     /\ same_but_stdin (io st) (io st')
                     /\ heap (mem st') = heap (mem st)
                     /\ hist st' = hist st /\ ctx st' = ctx st)
                    \/ (n = EXIT_FAILURE /\ ~ no_alloc_failure st)
                | Fault _ _ => False
                | Unfinished => False
                end).
      { intros st1 bufsize' (Hheap & Hnl & Hh & Hctx & Hio) Hna1.
        specialize (IH (bytes ++ [c]) (position + 1) bufsize' st1).
        rewrite Hheap in IH. specialize (IH ltac:(eauto)).
        destruct (read_line_loop rest buffer (bytes ++ [c]) (position + 1) bufsize' st1)
          as [b st'|n st'|f st'|]; try done.
        - destruct IH as (-> & (line & (c' & -> & Hc' & Hline) & Hheap') & Hnl' & Hh' & Hctx' & Hio' & Hna').
          rewrite Hio in Hio'.
          split_and!; try congruence; try done.
          + exists (c :: line). split.
            * exists c'. split_and!; try done. by constructor.
            * rewrite Hheap'. by rewrite <- app_assoc.
          + intros Hna. by apply Hna', Hna1.
        - destruct IH as [(-> & Hall & Hin & Hio' & Hheap' & Hh' & Hctx') | (-> & Hfail)].
          + left. rewrite Hio in Hio'. split_and!; try congruence; try done.
            by constructor.
          + right. split; [done|]. intros Hna. by apply Hfail, Hna1. }
      destruct (bufsize <=? position + 1).
      * unfold bind at 1.
        destruct (alloc_ok_spec st) as (b & st1 & -> & Hsame & Hna1).
        destruct b.
        -- apply Hstep; [done|]. intros Hna. by apply Hna1.
        -- unfold bind, set_stdin, eprint, modify; simpl. right. split; [done|].
           intros Hna. by destruct (Hna1 Hna).
      * apply Hstep; [apply same_but_oracle_refl | done].
Qed.


(** How [protosh_read_line] ends. *)
Lemma protosh_read_line_outcome (st : state) :
  match protosh_read_line st with
  | Ret b st' =>
      b = next_loc (mem st)
      /\ (exists line, first_line (stdin (io st)) line (stdin (io st'))
            /\ heap (mem st') = <[next_loc (mem st) := c_string line]> (heap (mem st)))
      /\ next_loc (mem st') = S (next_loc (mem st))
      /\ hist st' = hist st /\ ctx st' = ctx st
      /\ same_but_stdin (io st) (io st')
      /\ (no_alloc_failure st -> no_alloc_failure st')
  | Exit n st' =>
      (n = EXIT_SUCCESS
       /\ Forall (fun b => is_newline b = false) (stdin (io st))
       /\ stdin (io st') = []
       /\ same_but_stdin (io st) (io st')
       /\ hist st' = hist st /\ ctx st' = ctx st)
      \/ (n = EXIT_FAILURE /\ ~ no_alloc_failure st)
  | Fault _ _ => False
  | Unfinished => False
  end.
Proof.
  unfold protosh_read_line. unfold bind at 1.
  destruct (alloc_ok_spec st) as (b & st1 & -> & (Hheap & Hnl & Hh & Hctx & Hio) & Hna1).
  destruct b.
  - unfold bind at 1. unfold new_buffer. cbv zeta.
    unfold bind at 1. unfold gets.
    match goal with |- context [read_line_loop ?p ?b ?bs ?pos ?size ?s] =>
      pose proof (read_line_loop_outcome p b bs pos size s) as Hout;
      destruct (read_line_loop p b bs pos size s) as [b' st'|n st'|f st'|]
    end; simpl in Hout; rewrite ?lookup_insert_eq in Hout;
      specialize (Hout ltac:(eauto)); try done.
    + destruct Hout as (-> & (line & Hfirst & Hheap') & Hnl' & Hh' & Hctx' & Hio' & Hna').
      rewrite Hio in Hfirst, Hio'. rewrite insert_insert_eq, Hheap in Hheap'.
      split_and!; try congruence; try done.
      * exists line. split; [done|]. by rewrite Hheap', Hnl.
      * intros Hna. apply Hna'. by apply Hna1.
    + destruct Hout as [(-> & Hall & Hin & Hio' & _ & Hh' & Hctx') | (-> & Hfail)].
      * left. rewrite Hio in Hall, Hio'. split_and!; try congruence; done.
      * right. split; [done|]. intros Hna. apply Hfail. by apply Hna1.
  - unfold bind, eprint, modify; simpl. right. split; [done|].
    intros Hna. by destruct (Hna1 Hna).
Qed.

(** [protosh_read_line] on an input that holds a complete line, when no
    allocation fails: the line, whatever its length, is returned in a new
    buffer, without its final newline and cut at its first NUL byte if it
    has one; the input is left at the byte after the newline; nothing is
    printed, and the history store and the replay pointers are untouched. *)
Theorem protosh_read_line_reads_one_line (line rest : list ascii) (st : state) :
  first_line (stdin (io st)) line rest ->
  no_alloc_failure st ->
  exists st',
    protosh_read_line st = Ret (next_loc (mem st)) st'
    /\ heap (mem st') = <[next_loc (mem st) := c_string line]> (heap (mem st))
    /\ next_loc (mem st') = S (next_loc (mem st))
    /\ stdin (io st') = rest
    /\ same_but_stdin (io st) (io st')
    /\ hist st' = hist st /\ ctx st' = ctx st
    /\ no_alloc_failure st'
    /\ (Forall (fun b => char_code b <> 0) line ->
          c_string line = string_of_list_ascii line).
Proof.
  intros Hfirst Hna. pose proof (protosh_read_line_outcome st) as Hout.
  destruct (protosh_read_line st) as [b st'|n st'|f st'|]; try done.
  - destruct Hout as (-> & (line' & Hfirst' & Hheap') & Hnl' & Hh' & Hctx' & Hio' & Hna').
    destruct (first_line_unique _ _ _ _ _ Hfirst Hfirst') as [-> Hrest].
    exists st'. split_and!; try done; [by apply Hna'|].
    intros Hnul. clear -Hnul. induction Hnul as [|b l Hb _ IH]; [done|].
    simpl. destruct (char_code b =? 0) eqn:E; [apply Z.eqb_eq in E; done|].
    by rewrite IH.
  - destruct Hout as [(_ & Hall & _) | (_ & Hfail)]; [|done].
    by apply first_line_has_newline in Hfirst.
Qed.

(** [protosh_read_line] at the end of the input, when no allocation fails:
    without a newline left to read (no byte at all, or a last line that is
    not ended by one) the process exits with [EXIT_SUCCESS]; these bytes are
    never returned as a line, and nothing is printed. *)
Theorem protosh_read_line_at_end_of_input (st : state) :
  Forall (fun b => is_newline b = false) (stdin (io st)) ->
  no_alloc_failure st ->
  exists st',
    protosh_read_line st = Exit EXIT_SUCCESS st'
    /\ stdin (io st') = []
    /\ same_but_stdin (io st) (io st')
    /\ hist st' = hist st /\ ctx st' = ctx st.
Proof.
  intros Hall Hna. pose proof (protosh_read_line_outcome st) as Hout.
  destruct (protosh_read_line st) as [b st'|n st'|f st'|]; try done.
  - destruct Hout as (_ & (line & Hfirst & _) & _).
    by apply first_line_has_newline in Hfirst.
  - destruct Hout as [(-> & _ & Hin & Hio' & Hh' & Hctx') | (_ & Hfail)]; [|done].
    exists st'. by split_and!.
Qed.

End Reader.

(** ** A turn of the loop *)

Section Turn.


(** How [protosh_execute] ends: it returns, 0 for [exit] and 1 otherwise,
    with the memory, the history store and the replay pointers as they
    were; or the call of the [history] entry is undefined; or the program it
    has launched does not come to an end. *)
Lemma protosh_execute_outcome (args : list string) (st : state) :
  match protosh_execute args st with
  | Ret v st' =>
      mem st' = mem st /\ hist st' = hist st /\ ctx st' = ctx st
      /\ ((v = 0 /\ hd_error args = Some "exit")
          \/ (v = 1 /\ hd_error args <> Some "exit"))
      /\ hd_error args <> Some "history"
      /\ (args = [] -> st' = st)
      /\ (quiet (child_to_come (io st)) -> stdin (io st') = stdin (io st))
      /\ (children (io st') = children (io st)
          \/ children (io st') = tail (children (io st)))
  | Fault f _ => f = UndefinedCall /\ hd_error args = Some "history"
  | Unfinished => ends (reports (child_to_come (io st))) = false /\ args <> []
  | Exit _ _ => False
  end.
Proof.
  destruct args as [|name args].
  { cbn. split_and!; try done; first [by right | by left]. }
  unfold protosh_execute, builtin_str. cbn [find_builtin hd_error].
  destruct (String.eqb_spec name "cd") as [->|_].
  { cbn [builtin_func]. unfold protosh_cd. destruct (("cd" :: args) !! 1%nat).
    - unfold bind, syscall_ok. destruct (syscalls (io st)) as [|[] ?];
        cbn; split_and!; try done; first [by right | by left].
    - cbn. split_and!; try done; first [by right | by left]. }
  destruct (String.eqb_spec name "help") as [->|_].
  { cbn. split_and!; try done; first [by right | by left]. }
  destruct (String.eqb_spec name "exit") as [->|Hexit].
  { cbn. split_and!; try done; by left. }
  destruct (String.eqb_spec name "history") as [->|Hhist]; [done|].
  pose proof (protosh_launch_outcome (name :: args) st) as Hout.
  destruct (protosh_launch (name :: args) st) as [v st'|n st'|f st'|]; try done.
  - destruct Hout as (-> & Hm & Hh & Hc & _ & _ & Hcases). split_and!; try done.
    + right. split; [done|]. congruence.
    + congruence.
    + intros [Hzero _].
      destruct Hcases as [(_ & _ & _ & -> & _) | (_ & _ & -> & _)]; [|done].
      by rewrite Hzero.
    + destruct Hcases as [(_ & _ & _ & _ & _ & ->) | (_ & _ & _ & _ & ->)];
        first [by right | by left].
  - by destruct Hout.
Qed.

Lemma blank_line_has_no_word (line : list ascii) :
  Forall (fun b => is_tok_delim b = true) line -> line_words line = [].
Proof.
  intros Hblank. unfold line_words. apply strtok_tokens_blank.
  induction Hblank as [|b line Hb _ IH]; [constructor|].
  simpl. destruct (char_code b =? 0) eqn:E.
  - apply Z.eqb_eq in E. unfold is_tok_delim in Hb. rewrite E in Hb. done.
  - simpl. by constructor.
Qed.

(** How a turn of the loop ends. *)
Lemma loop_turn_outcome (st : state) :
  match protosh_loop_body st with
  | Ret v st' =>
      exists line rest,
        first_line (stdin (io st)) line rest
        /\ ((v = 0 /\ first_word "exit" line) \/ (v = 1 /\ ~ first_word "exit" line))
        /\ ~ first_word "history" line
        /\ heap (mem st') = delete (next_loc (mem st)) (heap (mem st))
        /\ next_loc (mem st') = S (next_loc (mem st))
        /\ hist st' = hist st /\ ctx st' = ctx st
        /\ (no_alloc_failure st -> no_alloc_failure st')
        /\ (quiet (child_to_come (io st)) -> stdin (io st') = rest)
        /\ (children (io st') = children (io st)
            \/ children (io st') = tail (children (io st)))
        /\ (line_words line = [] ->
              io st' = mk_world rest (stdout (io st) ++ ["> "]) (stderr (io st))
                         (chdirs (io st)) (spawned (io st)) (syscalls (io st))
                         (children (io st)))
  | Exit n _ =>
      (n = EXIT_SUCCESS /\ Forall (fun b => is_newline b = false) (stdin (io st)))
      \/ (n = EXIT_FAILURE /\ ~ no_alloc_failure st)
  | Fault f _ =>
      f = UndefinedCall
      /\ exists line rest,
           first_line (stdin (io st)) line rest /\ first_word "history" line
  | Unfinished =>
      ends (reports (child_to_come (io st))) = false
      /\ exists line rest,
           first_line (stdin (io st)) line rest /\ line_words line <> []
  end.
Proof.
  unfold protosh_loop_body. unfold bind at 1. unfold print, modify.
  change (with_io _ st) with (printed ["> "] st).
  set (st0 := printed ["> "] st).
  unfold bind at 1. pose proof (protosh_read_line_outcome st0) as Hread.
  destruct (protosh_read_line st0) as [b st1|n st1|f st1|]; try done.
  2:{ destruct Hread as [(-> & Hall & _) | (-> & Hfail)]; [by left | by right]. }
  destruct Hread as (-> & (line & Hfirst & Hheap1) & Hnl1 & Hh1 & Hctx1 & Hio1 & Hna1).
  change (next_loc (mem st0)) with (next_loc (mem st)) in *.
  change (heap (mem st0)) with (heap (mem st)) in *.
  change (stdin (io st0)) with (stdin (io st)) in *.
  change (hist st0) with (hist st) in *. change (ctx st0) with (ctx st) in *.
  destruct Hio1 as (Hout1 & Herr1 & Hdirs1 & Hspawned1 & Hsys1 & Hkids1).
  change (stdout (io st0)) with (stdout (io st) ++ ["> "]) in Hout1.
  change (stderr (io st0)) with (stderr (io st)) in Herr1.
  change (chdirs (io st0)) with (chdirs (io st)) in Hdirs1.
  change (spawned (io st0)) with (spawned (io st)) in Hspawned1.
  change (syscalls (io st0)) with (syscalls (io st)) in Hsys1.
  change (children (io st0)) with (children (io st)) in Hkids1.
  unfold bind at 1.
  assert (Hlive1 : heap (mem st1) !! next_loc (mem st) = Some (c_string line))
    by (by rewrite Hheap1, lookup_insert_eq).
  pose proof (protosh_split_line_outcome _ _ st1 Hlive1) as Hsplit.
  destruct (protosh_split_line (next_loc (mem st)) st1) as [args st2|n st2|f st2|];
    try done.
  2:{ right. destruct Hsplit as [-> Hfail]. split; [done|]. intros Hna. by apply Hfail, Hna1. }
  destruct Hsplit as (-> & Hheap2 & Hnl2 & Hh2 & Hctx2 & Hio2 & Hna2).
  fold (line_words line).
  assert (Hchild : child_to_come (io st2) = child_to_come (io st)).
  { unfold child_to_come. by rewrite Hio2, Hkids1. }
  unfold bind at 1.
  pose proof (protosh_execute_outcome (line_words line) st2) as Hexec.
  rewrite Hchild in Hexec.
  destruct (protosh_execute (line_words line) st2) as [v st3|n st3|f st3|]; try done.
  - destruct Hexec as (Hmem3 & Hh3 & Hctx3 & Hv & Hnothist & Hempty & Hin3 & Hkids3).
    unfold bind at 1. unfold free. rewrite Hmem3, Hheap2, lookup_insert_eq.
    unfold ret. exists line, (stdin (io st1)).
    cbn [mem heap next_loc hist ctx io with_mem].
    rewrite Hnl2, Hnl1, Hh3, Hh2, Hh1, Hctx3, Hctx2, Hctx1, Hheap1.
    rewrite !delete_insert_eq. split_and!; try done.
    + intros Hna. unfold no_alloc_failure. cbn [mem allocs with_mem].
      by apply Hna2, Hna1.
    + intros Hquiet. by rewrite (Hin3 Hquiet), Hio2.
    + by rewrite <- Hkids1, <- Hio2.
    + intros Hnone. rewrite (Hempty Hnone), Hio2.
      destruct (io st1) as [i o e d s y k]. simpl in *. by subst.
  - destruct Hexec as [-> Hhist]. split; [done|]. by exists line, (stdin (io st1)).
  - destruct Hexec as [Hends Hsome]. split; [done|]. by exists line, (stdin (io st1)).
Qed.


(** A blank line does nothing.  When the pending line consists of
    token delimiters only (the empty line included) and no allocation fails,
    the turn returns 1 and its only effects are the prompt on the standard
    output and the consumption of the line: nothing is written to the
    standard error, no directory is changed, no program is spawned, and the
    heap, the history store and the replay pointers are as before. *)
Theorem blank_line_only_prompts (line rest : list ascii) (st : state) :
  heap_bounded (mem st) ->
  first_line (stdin (io st)) line rest ->
  Forall (fun b => is_tok_delim b = true) line ->
  no_alloc_failure st ->
  exists st',
    protosh_loop_body st = Ret 1 st'
    /\ io st' = mk_world rest (stdout (io st) ++ ["> "]) (stderr (io st))
                  (chdirs (io st)) (spawned (io st)) (syscalls (io st))
                  (children (io st))
    /\ heap (mem st') = heap (mem st)
    /\ hist st' = hist st /\ ctx st' = ctx st.
Proof.
  intros Hb Hfirst Hblank Hna.
  pose proof (blank_line_has_no_word line Hblank) as Hnone.
  pose proof (loop_turn_outcome st) as Hout.
  destruct (protosh_loop_body st) as [v st'|n st'|f st'|].
  - destruct Hout as (line' & rest' & Hfirst' & Hv & _ & Hheap & Hnl & Hh & Hctx & _
                      & _ & _ & Hio).
    destruct (first_line_unique _ _ _ _ _ Hfirst Hfirst') as [-> ->].
    unfold first_word in Hv. rewrite Hnone in Hv.
    destruct Hv as [[_ ?] | [-> _]]; [done|].
    assert (Hfresh : heap (mem st) !! next_loc (mem st) = None).
    { destruct (heap (mem st) !! next_loc (mem st)) eqn:E; [|done].
      specialize (Hb (next_loc (mem st)) ltac:(by rewrite E)). lia. }
    rewrite delete_id in Hheap by done.
    exists st'. split_and!; try done. by apply Hio.
  - destruct Hout as [[_ Hall] | [_ Hfail]]; [|done].
    by destruct (first_line_has_newline _ _ _ Hfirst).
  - destruct Hout as (_ & line' & rest' & Hfirst' & Hhist).
    destruct (first_line_unique _ _ _ _ _ Hfirst Hfirst') as [-> ->].
    unfold first_word in Hhist. by rewrite Hnone in Hhist.
  - destruct Hout as (_ & line' & rest' & Hfirst' & Hsome).
    by destruct (first_line_unique _ _ _ _ _ Hfirst Hfirst') as [-> ->].
Qed.

End Turn.

(** ** A session of the interpreter *)

Section Session.





End Session.

(** ** Concrete runs *)

Lemma initial_state_represents (capacity : Z) (input : list ascii) (al sys : list bool)
    (kids : list child_run) :
  0 <= capacity -> represents capacity (initial_state input al sys kids) [].
Proof.
  intros Hcap. unfold represents, initial_state.
  cbn [mem heap next_loc allocs hist history history_len ctx io length].
  split_and!; try done.
  - intros l [s Hl]. cbn [mem heap] in Hl. by rewrite lookup_empty in Hl.
  - constructor.
Qed.

Lemma two_entries_represents (al : list bool) (c : replay_context) (w : world) :
  represents 3
    (mk_state (mk_memory (heap (mem two_entries)) 2 al) (hist two_entries) c w)
    [(0%nat, "history 1"); (1%nat, "help")].
Proof.
  unfold represents, two_entries.
  cbn [mem heap next_loc allocs hist history history_len ctx io length].
  split_and!; try done.
  - intros l [s Hl]. cbn [mem heap next_loc] in *.
    destruct (decide (l = 1%nat)) as [->|H1]; [lia|].
    destruct (decide (l = 0%nat)) as [->|H0]; [lia|].
    rewrite !lookup_insert_ne in Hl by done. by rewrite lookup_empty in Hl.
  - simpl. apply NoDup_cons. split; [|apply NoDup_singleton].
    intros H%list_elem_of_singleton. discriminate H.
  - by repeat constructor.
  - by repeat constructor.
Qed.

Lemma history_non_numeric_argument_witness :
  protosh_history parse_commands_with_pipes_spec (exec_commands_spec 1)
    [history_command "abc"] (history_command "abc") two_entries
  = Ret 1 (report parse_error two_entries).
Proof.
  apply (history_non_numeric_argument parse_commands_with_pipes_spec (exec_commands_spec 1)
           [history_command "abc"] (history_command "abc") "abc" two_entries).
  - reflexivity.
  - reflexivity.
  - discriminate.
  - apply strtol_None. reflexivity.
Defined.

Lemma history_offset_range_check_witness :
  protosh_history parse_commands_with_pipes_spec (exec_commands_spec 1)
    [history_command "5"] (history_command "5") two_entries
  = Ret 1 (report range_error two_entries)
  /\ protosh_history parse_commands_with_pipes_spec (exec_commands_spec 1)
       [history_command "2"] (history_command "2") two_entries
     <> Ret 1 (report range_error two_entries).
Proof.
  split.
  - apply (history_offset_range_check parse_commands_with_pipes_spec (exec_commands_spec 1)
             [history_command "5"] (history_command "5") "5" 5 two_entries);
      [reflexivity | reflexivity | discriminate | reflexivity | reflexivity].
  - apply (history_offset_range_check parse_commands_with_pipes_spec (exec_commands_spec 1)
             [history_command "2"] (history_command "2") "2" 2 two_entries);
      [reflexivity | reflexivity | discriminate | reflexivity | reflexivity].
Defined.

Lemma history_negative_offset_out_of_bounds_witness :
  protosh_history parse_commands_with_pipes_spec (exec_commands_spec 1)
    [history_command "-5"] (history_command "-5") two_entries
  = Fault (OutOfBounds (-5)) two_entries.
Proof.
  apply (history_negative_offset_out_of_bounds parse_commands_with_pipes_spec
           (exec_commands_spec 1)
           [history_command "-5"] (history_command "-5") "-5" (-5) two_entries);
    [reflexivity | reflexivity | discriminate | reflexivity | reflexivity
    | discriminate].
Defined.

(** C6 fails on the code.  The argument [4294967296] parses to 2^32, a
    number greater than the length 2 of the store; converted to [int] it is
    0, so the range check lets it through and the entry of index 0 is
    replayed: the handler returns 0 and [stderr] holds no range error. *)
Lemma history_offset_above_length_is_replayed :
  strtol "4294967296" = Some 4294967296
  /\ history_len (hist two_entries) < 4294967296
  /\ int_of_long 4294967296 = 0
  /\ exists st',
       protosh_history parse_commands_with_pipes_spec (exec_commands_spec 3)
         [history_command "4294967296"] (history_command "4294967296") two_entries
       = Ret 0 st'
       /\ stderr (io st') = []
       /\ Ret 0 st' <> Ret 1 (report range_error two_entries).
Proof.
  split_and!; [reflexivity | reflexivity | reflexivity |].
  eexists. split_and!; [vm_compute; reflexivity | reflexivity | discriminate].
Qed.

(** C10 fails on the code.  The argument [-4294967290] parses to a negative
    number; converted to [int] it is 6, greater than the length 2 of the
    store, and the range check rejects it: no read of the array at a
    negative index. *)
Lemma history_negative_argument_is_rejected :
  strtol "-4294967290" = Some (-4294967290)
  /\ -4294967290 < 0
  /\ int_of_long (-4294967290) = 6
  /\ protosh_history parse_commands_with_pipes_spec (exec_commands_spec 1)
       [history_command "-4294967290"] (history_command "-4294967290") two_entries
     = Ret 1 (report range_error two_entries).
Proof. split_and!; reflexivity. Qed.

Lemma history_store_invariant_witness :
  exists st',
    record_all 2 ["echo a"; "echo b"; "echo c"] (initial_state [] [] [] []) = Ret tt st'
    /\ history_entries st' = Some ["echo b"; "echo c"]
    /\ history_len (hist st') = 2.
Proof.
  destruct (history_store_invariant 2 ltac:(reflexivity)
              ["echo a"; "echo b"; "echo c"] (initial_state [] [] [] []))
    as (st' & before & after & Hrun & _ & Hbefore & Hafter & Hlen & _ & Hkeep).
  { exists []. apply initial_state_represents. discriminate. }
  injection Hbefore as <-.
  destruct (Hkeep ltac:(constructor)) as (-> & _).
  exists st'. split_and!; [exact Hrun | exact Hafter | exact Hlen].
Defined.

Lemma replay_runs_a_private_copy_witness :
  heap (mem two_entries) !! 2%nat = None
  /\ forall ops : list store_op,
       exists st2,
         run_store_ops 3 ops
           (mk_state
              (mk_memory (<[2%nat := "help"]> (heap (mem two_entries))) 3 [])
              (hist two_entries)
              (mk_replay_context (Some (history_command "1")) (Some [history_command "1"])
                 (Some 2%nat))
              (io two_entries)) = Ret tt st2
         /\ load (Some 2%nat) st2 = Ret "help" st2.
Proof.
  destruct (replay_runs_a_private_copy 3 ltac:(reflexivity)
              parse_commands_with_pipes_spec (exec_commands_spec 2)
              [history_command "1"] (history_command "1") "1" 1
              ["history 1"; "help"] "help" two_entries)
    as (_ & Hfresh & _ & _ & _ & Hops).
  - reflexivity.
  - reflexivity.
  - discriminate.
  - reflexivity.
  - eexists. apply (two_entries_represents [] null_context (mk_world [] [] [] [] [] [] [])).
  - reflexivity.
  - discriminate.
  - reflexivity.
  - discriminate.
  - split; [exact Hfresh | exact Hops].
Defined.

Lemma allocation_failure_policy_witness :
  fatal_on_alloc_failure two_entries_no_memory (protosh_read_line two_entries_no_memory)
  /\ fatal_on_alloc_failure two_entries_no_memory
       (protosh_split_line 0 two_entries_no_memory)
  /\ returns_zero_on_alloc_failure two_entries_no_memory
       (add_to_history 3 "ls" two_entries_no_memory).
Proof.
  destruct (allocation_failure_policy 3 ltac:(reflexivity) 0 "ls" two_entries_no_memory)
    as (Hread & Hsplit & Hadd).
  split_and!.
  - exact Hread.
  - apply Hsplit. eexists. reflexivity.
  - apply Hadd. eexists.
    apply (two_entries_represents [false] null_context (mk_world [] [] [] [] [] [] [])).
Defined.

Lemma replay_resets_context_witness :
  exists (v : Z) (st' : state),
    protosh_history parse_commands_with_pipes_spec (exec_commands_spec 2)
      [history_command "1"] (history_command "1") two_entries = Ret v st'
    /\ v = 0
    /\ ctx st' = null_context.
Proof.
  eexists _, _. split; [vm_compute; reflexivity|].
  destruct (replay_resets_context parse_commands_with_pipes_spec (exec_commands_spec 2)
              [history_command "1"] (history_command "1") "1" 1 two_entries _ _
              ltac:(reflexivity) ltac:(reflexivity) ltac:(discriminate)
              ltac:(reflexivity) ltac:(discriminate)
              ltac:(vm_compute; reflexivity))
    as [(Hv & _) | (Hv & Hctx & _)].
  - discriminate Hv.
  - split; [exact Hv | exact Hctx].
Defined.

(** C4 fails on the code.  The store holds [history 1] and [help]; the
    command [history 0] is run.  With [exec_commands] replaced by a function
    that exits at once, the outcome shows the state [s1] in which the outer
    replay calls [exec_commands]: the three pointers are those of the outer
    replay.  Running the replayed line [history 1] in [s1], a nested replay,
    returns in a state [s2] where the three pointers are [NULL], not the
    values the outer replay had set. *)
Lemma nested_replay_clobbers_parent_context :
  exists s1 s2 : state,
    protosh_history parse_commands_with_pipes_spec (fun _ => exit 0)
      [history_command "0"] (history_command "0") two_entries = Exit 0 s1
    /\ ctx s1 = mk_replay_context (Some (history_command "0"))
                  (Some [history_command "0"]) (Some 2%nat)
    /\ exec_commands_spec 2 (parse_commands_with_pipes_spec "history 1") s1 = Ret 0 s2
    /\ ctx s2 = null_context
    /\ ctx s2 <> ctx s1.
Proof.
  eexists _, _. split_and!.
  - vm_compute. reflexivity.
  - reflexivity.
  - vm_compute. reflexivity.
  - reflexivity.
  - discriminate.
Qed.

(** C8 fails on the code.  [add_to_history] with a failing [calloc], and
    with a failing [strdup]: the function returns 0 to its caller, the
    process goes on. *)
Lemma add_to_history_alloc_failure_is_not_fatal :
  add_to_history 3 "ls" (initial_state [] [false] [] [])
    = Ret 0 (report (Message ("error: memory alloc error" +:+ LF)) (initial_state [] [] [] []))
  /\ add_to_history 3 "ls" two_entries_no_memory = Ret 0 two_entries
  /\ ~ fatal_on_alloc_failure two_entries_no_memory
         (add_to_history 3 "ls" two_entries_no_memory).
Proof.
  split_and!; [reflexivity | reflexivity |].
  change (add_to_history 3 "ls" two_entries_no_memory) with (Ret 0 two_entries).
  intros (used & Hused & Hnin). simpl in Hused.
  apply Hnin. destruct used as [|b used]; [done|].
  injection Hused as <- Hrest. left.
Qed.


Lemma history_lists_the_entries_witness :
  protosh_history parse_commands_with_pipes_spec (exec_commands_spec 1)
    [command_of_args ["history"]] (command_of_args ["history"]) two_entries
  = Ret 1 (printed ["0 history 1" +:+ LF; "1 help" +:+ LF] two_entries).
Proof.
  apply (history_lists_the_entries 3 ltac:(reflexivity)
           parse_commands_with_pipes_spec (exec_commands_spec 1)
           [command_of_args ["history"]] (command_of_args ["history"]) two_entries
           ["history 1"; "help"]).
  - eexists. apply (two_entries_represents [] null_context (mk_world [] [] [] [] [] [] [])).
  - reflexivity.
  - reflexivity.
Defined.

Lemma history_clear_then_list_is_empty_witness :
  exists st',
    protosh_history parse_commands_with_pipes_spec (exec_commands_spec 1)
      [history_command "-c"] (history_command "-c") two_entries = Ret 0 st'
    /\ history_entries st' = Some []
    /\ protosh_history parse_commands_with_pipes_spec (exec_commands_spec 1)
         [command_of_args ["history"]] (command_of_args ["history"]) st' = Ret 1 st'.
Proof.
  destruct (history_clear_then_list_is_empty 3 ltac:(reflexivity)
              parse_commands_with_pipes_spec (exec_commands_spec 1)
              [history_command "-c"] [command_of_args ["history"]]
              (history_command "-c") (command_of_args ["history"]) two_entries)
    as (st' & Hclear & _ & Hentries & _ & Hlist).
  - eexists. apply (two_entries_represents [] null_context (mk_world [] [] [] [] [] [] [])).
  - reflexivity.
  - reflexivity.
  - reflexivity.
  - exists st'. split_and!; [exact Hclear | exact Hentries | exact Hlist].
Defined.

Lemma history_clear_returns_the_exit_value_witness :
  exists st',
    protosh_history parse_commands_with_pipes_spec (exec_commands_spec 1)
      [history_command "-c"] (history_command "-c") two_entries = Ret 0 st'
    /\ history_len (hist st') = 0.
Proof.
  destruct (history_clear_returns_the_exit_value 3 ltac:(reflexivity)
              parse_commands_with_pipes_spec (exec_commands_spec 1)
              [history_command "-c"] (history_command "-c") two_entries)
    as (Hclear & _).
  - eexists. apply (two_entries_represents [] null_context (mk_world [] [] [] [] [] [] [])).
  - reflexivity.
  - reflexivity.
  - exact Hclear.
Defined.

Lemma replay_one_past_the_last_entry_faults_witness :
  protosh_history parse_commands_with_pipes_spec (exec_commands_spec 1)
    [history_command "2"] (history_command "2") two_entries
  = Fault NullPointer two_entries.
Proof.
  apply (replay_one_past_the_last_entry_faults 3 parse_commands_with_pipes_spec
           (exec_commands_spec 1) [history_command "2"] (history_command "2") "2" 2
           two_entries).
  - eexists. apply (two_entries_represents [] null_context (mk_world [] [] [] [] [] [] [])).
  - reflexivity.
  - reflexivity.
  - discriminate.
  - reflexivity.
  - reflexivity.
  - right. eexists. split; reflexivity.
Defined.

Lemma loop_turn_keeps_the_store_witness :
  keeps_store (initial_state (list_ascii_of_string ("ls" +:+ LF)) [] [] [])
    (protosh_loop_body
       (initial_state (list_ascii_of_string ("ls" +:+ LF)) [] [] [])).
Proof.
  apply loop_turn_keeps_the_store.
  intros line st1 args st2 Hread Hsplit.
  vm_compute in Hread. injection Hread as <- <-.
  vm_compute in Hsplit. injection Hsplit as <- <-.
  discriminate.
Defined.

Lemma protosh_split_line_gives_the_words_witness :
  exists st',
    protosh_split_line 0
      (mk_state (mk_memory (<[0%nat := "ls  -l"]> ∅) 1 []) (mk_store None 0) null_context
         (mk_world [] [] [] [] [] [] [])) = Ret ["ls"; "-l"] st'
    /\ heap (mem st') = <[0%nat := "ls"]> (<[0%nat := "ls  -l"]> ∅).
Proof.
  destruct (protosh_split_line_gives_the_words 0 "ls  -l"
              (mk_state (mk_memory (<[0%nat := "ls  -l"]> ∅) 1 []) (mk_store None 0)
                 null_context (mk_world [] [] [] [] [] [] [])))
    as (st' & Hrun & Hheap & _).
  - reflexivity.
  - constructor.
  - exists st'. split; [exact Hrun | exact Hheap].
Defined.

Lemma protosh_read_line_reads_one_line_witness :
  exists st',
    protosh_read_line
      (initial_state (list_ascii_of_string ("ls" +:+ LF +:+ "exit" +:+ LF)) [] [] [])
    = Ret 0%nat st'
    /\ heap (mem st') = <[0%nat := "ls"]> ∅
    /\ stdin (io st') = list_ascii_of_string ("exit" +:+ LF).
Proof.
  destruct (protosh_read_line_reads_one_line
              (list_ascii_of_string "ls") (list_ascii_of_string ("exit" +:+ LF))
              (initial_state (list_ascii_of_string ("ls" +:+ LF +:+ "exit" +:+ LF)) [] [] []))
    as (st' & Hrun & Hheap & _ & Hrest & _).
  - exists (ascii_of_nat 10). split_and!; [reflexivity | reflexivity |].
    repeat constructor.
  - constructor.
  - exists st'. split_and!; [exact Hrun | exact Hheap | exact Hrest].
Defined.

Lemma protosh_read_line_at_end_of_input_witness :
  exists st',
    protosh_read_line (initial_state (list_ascii_of_string "ls") [] [] [])
    = Exit EXIT_SUCCESS st'.
Proof.
  destruct (protosh_read_line_at_end_of_input
              (initial_state (list_ascii_of_string "ls") [] [] []))
    as (st' & Hrun & _).
  - repeat constructor.
  - constructor.
  - exists st'. exact Hrun.
Defined.


Lemma blank_line_only_prompts_witness :
  exists st',
    protosh_loop_body
      (initial_state (list_ascii_of_string ("  " +:+ LF +:+ "exit" +:+ LF)) [] [] [])
    = Ret 1 st'
    /\ io st' = mk_world (list_ascii_of_string ("exit" +:+ LF)) ["> "] [] [] [] [] [].
Proof.
  destruct (blank_line_only_prompts
              (list_ascii_of_string "  ") (list_ascii_of_string ("exit" +:+ LF))
              (initial_state (list_ascii_of_string ("  " +:+ LF +:+ "exit" +:+ LF)) [] [] []))
    as (st' & Hrun & Hio & _).
  - intros l [text Hl]. discriminate Hl.
  - exists (ascii_of_nat 10). split_and!; [reflexivity | reflexivity |].
    repeat constructor.
  - repeat constructor.
  - constructor.
  - exists st'. split; [exact Hrun | exact Hio].
Defined.


Lemma history_store_does_not_leak_witness :
  exists st',
    run_store_ops 2
      [RecordLine "ls"; RecordLine "pwd"; RecordLine "date"; ClearAll; RecordLine "ls"]
      (initial_state [] [] [false] []) = Ret tt st'
    /\ Z.of_nat (size (heap (mem st'))) = history_len (hist st')
    /\ history_len (hist st') <= 2.
Proof.
  destruct (history_store_does_not_leak 2 ltac:(reflexivity)
              [RecordLine "ls"; RecordLine "pwd"; RecordLine "date"; ClearAll; RecordLine "ls"]
              (initial_state [] [] [false] []) [])
    as (st' & es' & Hrun & _ & _ & Hsize & Hcap).
  - apply initial_state_represents. discriminate.
  - intros l [text Hl]. discriminate Hl.
  - exists st'. split_and!; [exact Hrun | exact Hsize | exact Hcap].
Defined.

Lemma listed_index_replays_its_entry_witness :
  listing 0 ["history 1"; "help"] !! 1%nat = Some ("1 help" +:+ LF)
  /\ strtol "1" = Some 1.
Proof.
  pose proof (listed_index_replays_its_entry 3 ltac:(reflexivity)
                parse_commands_with_pipes_spec (exec_commands_spec 2)
                [history_command "1"] (history_command "1")
                1%nat ["history 1"; "help"] "help" two_entries) as Hround.
  destruct Hround as (Hline & Hconv & _).
  - discriminate.
  - eexists. apply (two_entries_represents [] null_context (mk_world [] [] [] [] [] [] [])).
  - reflexivity.
  - reflexivity.
  - discriminate.
  - reflexivity.
  - reflexivity.
  - split; [exact Hline | exact Hconv].
Defined.

Lemma replay_releases_its_copy_witness :
  exists st',
    protosh_history parse_commands_with_pipes_spec (exec_commands_spec 2)
      [history_command "1"] (history_command "1") two_entries = Ret 0 st'
    /\ heap (mem st') = heap (mem two_entries)
    /\ ctx st' = null_context.
Proof.
  edestruct (replay_releases_its_copy 3 ltac:(reflexivity)
               parse_commands_with_pipes_spec (exec_commands_spec 2)
               [history_command "1"] (history_command "1") "1" 1
               ["history 1"; "help"] "help" "help" two_entries)
    as (st' & Hrun & _ & _ & _ & Hctx & _ & Hheap).
  - reflexivity.
  - reflexivity.
  - discriminate.
  - reflexivity.
  - eexists. apply (two_entries_represents [] null_context (mk_world [] [] [] [] [] [] [])).
  - reflexivity.
  - discriminate.
  - reflexivity.
  - discriminate.
  - reflexivity.
  - reflexivity.
  - exists st'. split_and!; [exact Hrun | apply Hheap; reflexivity | exact Hctx].
Defined.


